(** * vite-plugin-mpa: page discovery, template cache and script injection

    A shallow embedding of the plugin's TypeScript sources and the proofs of
    the properties its specification states about them.

    Two revisions of [src/index.ts] are embedded:
    - the revision with [readTemplateWithCache], [buildScriptSrc],
      [isScriptAlreadyInjected] and the debounced development adapter
      (top level of this file);
    - the first revision, with the single-filename options [pagesDir] and
      [entryFile] (module [IndexTs]).

    Strings are sequences of code units; every [ascii] stands for one code
    unit in the range 0..255. *)

From Stdlib Require Import Ascii String List Bool Arith Lia.
From stdpp Require Import gmap strings sorting.

Local Open Scope char_scope.
Local Open Scope stdpp_scope.

#[local] Arguments String.append : simpl nomatch.

(** ** JavaScript string primitives *)

Module Js.

(** Truthiness of a string value: every string but the empty one. *)
Definition truthy (s : string) : bool :=
  match s with "" => false | String _ _ => true end.

(** [a || b] on strings. *)
Definition or_else (a b : string) : string := if truthy a then a else b.

(** [s.startsWith(p)]. *)
Fixpoint startsWith (s p : string) : bool :=
  match p, s with
  | "", _ => true
  | String _ _, "" => false
  | String b p', String a s' => if Ascii.eqb a b then startsWith s' p' else false
  end.

(** [s.endsWith(suf)]: some suffix of [s] is [suf]. *)
Fixpoint endsWith (s suf : string) : bool :=
  if String.eqb s suf then true
  else match s with
       | "" => false
       | String _ s' => endsWith s' suf
       end.

(** The first [n] code units of [s]. *)
Fixpoint take (n : nat) (s : string) : string :=
  match n, s with
  | S n', String a s' => String a (take n' s')
  | _, _ => ""
  end.

(** [s.slice(0, -n)] for [n > 0]: all but the last [n] code units, the
    empty string when [s] is shorter. *)
Definition slice_to_minus (s : string) (n : nat) : string :=
  take (String.length s - n) s.

(** The pieces of [s] between the code units that satisfy [f]. *)
Fixpoint splitBy (f : ascii -> bool) (s : string) : list string :=
  match s with
  | "" => [""]
  | String a s' =>
      if f a then "" :: splitBy f s'
      else match splitBy f s' with
           | [] => [String a ""]
           | h :: t => String a h :: t
           end
  end.

(** [s.split(c)] for a separator of one code unit. *)
Definition split (c : ascii) (s : string) : list string :=
  splitBy (fun a => Ascii.eqb a c) s.

(** [parts.join(sep)]. *)
Definition join (sep : string) (parts : list string) : string :=
  String.concat sep parts.

(** [s.replace(/c/g, d)] for single code units [c] and [d]. *)
Fixpoint replaceAllChar (c d : ascii) (s : string) : string :=
  match s with
  | "" => ""
  | String a s' => String (if Ascii.eqb a c then d else a) (replaceAllChar c d s')
  end.

(** [s.replace(/^c/, "")]: one leading [c] removed. *)
Definition stripLeadingChar (c : ascii) (s : string) : string :=
  match s with
  | String a s' => if Ascii.eqb a c then s' else s
  | "" => ""
  end.

Fixpoint all_char (c : ascii) (s : string) : bool :=
  match s with
  | "" => true
  | String a s' => Ascii.eqb a c && all_char c s'
  end.

(** [s.replace(/c+$/, "")]: the leftmost position from which only [c]
    follows up to the end starts the match, so the whole final run goes. *)
Fixpoint stripTrailingRun (c : ascii) (s : string) : string :=
  match s with
  | "" => ""
  | String a s' => if all_char c s then "" else String a (stripTrailingRun c s')
  end.

(** Canonicalize of the [i] flag (no [u] flag) on code units below 256:
    the upper-case mapping where it stays a single code unit of the same
    range. U+00B5 and U+00FF map outside the range and U+00DF to two code
    units, so within the range they only match themselves. *)
Definition canonicalize (a : ascii) : ascii :=
  let n := nat_of_ascii a in
  if ((97 <=? n) && (n <=? 122))%nat then ascii_of_nat (n - 32)
  else if ((224 <=? n) && (n <=? 254) && negb (n =? 247))%nat then ascii_of_nat (n - 32)
  else a.

Definition eqb_ci (a b : ascii) : bool :=
  Ascii.eqb (canonicalize a) (canonicalize b).

(** A literal pattern [p] matched case-insensitively at the start of [s]. *)
Fixpoint startsWith_ci (s p : string) : bool :=
  match p, s with
  | "", _ => true
  | String _ _, "" => false
  | String b p', String a s' => if eqb_ci a b then startsWith_ci s' p' else false
  end.

Fixpoint drop (n : nat) (s : string) : string :=
  match n, s with
  | S n', String _ s' => drop n' s'
  | _, _ => s
  end.

(** Leftmost case-insensitive occurrence of the literal [p] in [s]:
    the text before it, the matched text and the text after it. *)
Fixpoint find_ci (p s : string) : option (string * string * string) :=
  if startsWith_ci s p
  then Some ("", take (String.length p) s, drop (String.length p) s)
  else match s with
       | "" => None
       | String a s' =>
           match find_ci p s' with
           | Some (before, m, after) => Some (String a before, m, after)
           | None => None
           end
       end.

(** [/p$/i.test(s)] for a literal [p]. *)
Fixpoint endsWith_ci (s p : string) : bool :=
  if (String.length s =? String.length p)%nat && startsWith_ci s p then true
  else match s with
       | "" => false
       | String _ s' => endsWith_ci s' p
       end.

(** [s.replace(/p$/i, "")] for a literal [p]. *)
Definition stripSuffix_ci (s p : string) : string :=
  if endsWith_ci s p then take (String.length s - String.length p) s else s.

(** GetSubstitution of [String.prototype.replace] for a pattern without
    capture groups: [$$] is a dollar sign, [$&] the matched text, [$`] the
    text before the match, [$'] the text after it; every other code unit,
    a dollar before anything else included, stands for itself. *)
Fixpoint getSubstitution (matched before after repl : string) : string :=
  match repl with
  | "" => ""
  | String a r =>
      if Ascii.eqb a "$" then
        match r with
        | String b r' =>
            if Ascii.eqb b "$" then String "$" (getSubstitution matched before after r')
            else if Ascii.eqb b "&" then matched +:+ getSubstitution matched before after r'
            else if Ascii.eqb b "`" then before +:+ getSubstitution matched before after r'
            else if Ascii.eqb b "'" then after +:+ getSubstitution matched before after r'
            else String a (getSubstitution matched before after r)
        | "" => String a ""
        end
      else String a (getSubstitution matched before after r)
  end.

(** [s.replace(/p/i, repl)] for a literal [p] and a replacement string. *)
Definition replaceFirst_ci (p repl s : string) : string :=
  match find_ci p s with
  | Some (before, m, after) => before +:+ getSubstitution m before after repl +:+ after
  | None => s
  end.

(** Leftmost case-sensitive occurrence of the literal [p] in [s]. *)
Fixpoint find (p s : string) : option (string * string) :=
  if startsWith s p
  then Some ("", drop (String.length p) s)
  else match s with
       | "" => None
       | String a s' =>
           match find p s' with
           | Some (before, after) => Some (String a before, after)
           | None => None
           end
       end.

(** [s.replace(p, repl)] for a string pattern [p]: the first occurrence,
    with the same replacement patterns. *)
Definition replaceFirst (p repl s : string) : string :=
  match find p s with
  | Some (before, after) => before +:+ getSubstitution p before after repl +:+ after
  | None => s
  end.

End Js.

(** ** Node's [path] module

    [path.join], [path.normalize] and [path.dirname] of the host platform
    ([path]) and of [path.posix]. Drive letters and UNC prefixes are not
    interpreted: a path is rooted when it starts with a separator. The
    plugin joins a directory with names read from it, where this is exact. *)

Module NodePath.

Inductive Platform := Posix | Win32.

(** [path.sep]. *)
Definition sep (pf : Platform) : ascii :=
  match pf with Posix => "/" | Win32 => "\" end.

Definition isPathSeparator (pf : Platform) (a : ascii) : bool :=
  match pf with
  | Posix => Ascii.eqb a "/"
  | Win32 => Ascii.eqb a "/" || Ascii.eqb a "\"
  end.

(** The segments between separators. *)
Definition segments (pf : Platform) (s : string) : list string :=
  Js.splitBy (isPathSeparator pf) s.

(** One step of [normalizeString] on the stack of kept segments (last
    kept segment first): empty and [.] segments go, [..] removes the last
    kept segment unless that is [..] itself or there is none, and then
    stays only where climbing above the start is allowed. *)
Definition normalizeStep (allowAboveRoot : bool) (kept : list string) (seg : string)
  : list string :=
  if String.eqb seg "" || String.eqb seg "." then kept
  else if String.eqb seg ".." then
    match kept with
    | top :: rest =>
        if String.eqb top ".." then seg :: kept else rest
    | [] => if allowAboveRoot then [seg] else []
    end
  else seg :: kept.

Definition normalizeString (pf : Platform) (allowAboveRoot : bool) (path : string) : string :=
  Js.join (String (sep pf) "")
    (rev (fold_left (normalizeStep allowAboveRoot) (segments pf path) [])).

Definition lastIsSeparator (pf : Platform) (path : string) : bool :=
  match String.rev path with
  | String a _ => isPathSeparator pf a
  | "" => false
  end.

Definition firstIsSeparator (pf : Platform) (path : string) : bool :=
  match path with
  | String a _ => isPathSeparator pf a
  | "" => false
  end.

(** [path.normalize]. *)
Definition normalize (pf : Platform) (path : string) : string :=
  match path with
  | "" => "."
  | String _ _ =>
      let isAbsolute := firstIsSeparator pf path in
      let trailingSeparator := lastIsSeparator pf path in
      let root := String (sep pf) "" in
      let res := normalizeString pf (negb isAbsolute) path in
      match res with
      | "" => if isAbsolute then root
              else if trailingSeparator then "." +:+ root else "."
      | String _ _ =>
          let res' := if trailingSeparator then res +:+ root else res in
          if isAbsolute then root +:+ res' else res'
      end
  end.

(** [path.join(...args)]: the non-empty arguments joined by the separator,
    then normalized; [.] when there is none. *)
Definition join (pf : Platform) (args : list string) : string :=
  match List.filter Js.truthy args with
  | [] => "."
  | parts => normalize pf (Js.join (String (sep pf) "") parts)
  end.

Fixpoint dropWhile (f : ascii -> bool) (s : string) : string :=
  match s with
  | "" => ""
  | String a s' => if f a then dropWhile f s' else s
  end.

(** [path.dirname]: scanning from the end, trailing separators and the
    last segment are passed over; the separator found then ends the
    result. The first code unit is not scanned in a rooted path (nor in
    any path on POSIX): the result is then the root, or [.]. *)
Definition dirname (pf : Platform) (path : string) : string :=
  match path with
  | "" => "."
  | String a0 _ =>
      let hasRoot := isPathSeparator pf a0 in
      let scanned :=
        match pf, hasRoot with
        | Win32, false => String.rev path
        | _, _ => String.rev (Js.drop 1 path)
        end in
      let past := dropWhile (fun a => negb (isPathSeparator pf a))
                    (dropWhile (isPathSeparator pf) scanned) in
      match past with
      | "" => if hasRoot then String a0 "" else "."
      | String _ before =>
          let unscanned := String.length path - String.length scanned in
          let e := unscanned + String.length before in
          match pf with
          | Posix => if hasRoot && (e =? 1)%nat then "//" else Js.take e path
          | Win32 => Js.take e path
          end
      end
  end.

End NodePath.

(** ** Regular expressions

    The expressions the plugin builds with [new RegExp] and only tests
    ([RegExp.prototype.test]): syntax, Brzozowski derivatives and the
    search for a matching substring. *)

Module Re.

Inductive re :=
| Void
| Eps
| Cls (f : ascii -> bool)
| Cat (r1 r2 : re)
| Alt (r1 r2 : re)
| Star (r : re).

Fixpoint nullable (r : re) : bool :=
  match r with
  | Void => false
  | Eps => true
  | Cls _ => false
  | Cat r1 r2 => nullable r1 && nullable r2
  | Alt r1 r2 => nullable r1 || nullable r2
  | Star _ => true
  end.

(** Constructors that drop dead branches, to keep derivatives small. *)
Definition cat (r1 r2 : re) : re :=
  match r1, r2 with
  | Void, _ => Void
  | _, Void => Void
  | Eps, _ => r2
  | _, _ => Cat r1 r2
  end.

Definition alt (r1 r2 : re) : re :=
  match r1, r2 with
  | Void, _ => r2
  | _, Void => r1
  | _, _ => Alt r1 r2
  end.

Fixpoint deriv (a : ascii) (r : re) : re :=
  match r with
  | Void => Void
  | Eps => Void
  | Cls f => if f a then Eps else Void
  | Cat r1 r2 =>
      if nullable r1 then alt (cat (deriv a r1) r2) (deriv a r2)
      else cat (deriv a r1) r2
  | Alt r1 r2 => alt (deriv a r1) (deriv a r2)
  | Star r1 => cat (deriv a r1) (Star r1)
  end.

(** Some prefix of [s] matches [r]. *)
Fixpoint prefixb (r : re) (s : string) : bool :=
  nullable r ||
  match s with
  | "" => false
  | String a s' => prefixb (deriv a r) s'
  end.

(** [r.test(s)] for an expression without anchors: a match may start at
    any position. *)
Fixpoint test (r : re) (s : string) : bool :=
  prefixb r s ||
  match s with
  | "" => false
  | String _ s' => test r s'
  end.

(** The strings an expression matches. *)
Inductive matches : re -> string -> Prop :=
| MEps : matches Eps ""
| MCls f a : f a = true -> matches (Cls f) (String a "")
| MCat r1 r2 s1 s2 : matches r1 s1 -> matches r2 s2 -> matches (Cat r1 r2) (s1 +:+ s2)
| MAltL r1 r2 s : matches r1 s -> matches (Alt r1 r2) s
| MAltR r1 r2 s : matches r2 s -> matches (Alt r1 r2) s
| MStarNil r : matches (Star r) ""
| MStarApp r s1 s2 : matches r s1 -> matches (Star r) s2 -> matches (Star r) (s1 +:+ s2).

(** A literal under the [i] flag. *)
Definition chr_ci (c : ascii) : re := Cls (fun a => Js.eqb_ci a c).

Fixpoint lit_ci (s : string) : re :=
  match s with
  | "" => Eps
  | String c s' => Cat (chr_ci c) (lit_ci s')
  end.

Definition plus (r : re) : re := Cat r (Star r).

(** SyntaxCharacter of the pattern grammar. *)
Definition isSyntaxChar (a : ascii) : bool :=
  existsb (Ascii.eqb a)
    ["^"%char; "$"%char; "\"%char; "."%char; "*"%char; "+"%char; "?"%char;
     "("%char; ")"%char; "["%char; "]"%char; "{"%char; "}"%char; "|"%char].

(** The reading of a pattern fragment made of pattern characters and
    identity escapes of syntax characters only, under the [i] flag.
    A fragment with a bare syntax character or another escape is an
    operator, a class or an error, and is not read here. *)
Fixpoint parseAtoms (p : string) : option re :=
  match p with
  | "" => Some Eps
  | String a p' =>
      if Ascii.eqb a "\" then
        match p' with
        | String b p'' =>
            if isSyntaxChar b
            then match parseAtoms p'' with
                 | Some r => Some (Cat (chr_ci b) r)
                 | None => None
                 end
            else None
        | "" => None
        end
      else if isSyntaxChar a then None
      else match parseAtoms p' with
           | Some r => Some (Cat (chr_ci a) r)
           | None => None
           end
  end.

End Re.

(** ** Pages, disk and caches *)

(** [interface Page]. *)
Record Page := mkPage {
  name : string;
  entry : string;
  template : string;
}.

Global Instance Page_eq_dec : EqDecision Page.
Proof. solve_decision. Defined.

(** [type Pages = Record<string, Page>]: the own properties of the object.
    Names inherited from [Object.prototype] are not part of the model. *)
Abbreviation Pages := (gmap string Page).

Definition PLUGIN_NAME : string := "vite-plugin-mpa".

Definition dq : ascii := "034".
Definition nl : string := String "010" "".

(** A double-quoted attribute value. *)
Definition quoted (s : string) : string := String dq (s +:+ String dq "").

(** [templateFallback], after [trim()]. *)
Definition templateFallback : string :=
  "<!doctype html>" +:+ nl +:+
  "<html>" +:+ nl +:+
  "  <head>" +:+ nl +:+
  "    <meta charset=" +:+ quoted "utf-8" +:+ " />" +:+ nl +:+
  "    <meta name=" +:+ quoted "viewport" +:+ " content="
    +:+ quoted "width=device-width, initial-scale=1" +:+ " />" +:+ nl +:+
  "    <title>Vite MPA</title>" +:+ nl +:+
  "  </head>" +:+ nl +:+
  "  <body>" +:+ nl +:+
  "    <div id=" +:+ quoted "app" +:+ "></div>" +:+ nl +:+
  "  </body>" +:+ nl +:+
  "</html>".

(** What a path holds on disk: nothing, something [readFileSync] throws on
    (a directory, a file without read permission), or text. *)
Inductive FileState :=
| Missing
| Unreadable
| Content (text : string).

Definition Disk := string -> FileState.

Definition existsSync (disk : Disk) (p : string) : bool :=
  match disk p with Missing => false | _ => true end.

(** [readFileSync(p, 'utf-8')]; [None] when it throws. *)
Definition readFileSync (disk : Disk) (p : string) : option string :=
  match disk p with Content text => Some text | _ => None end.

(** What the plugin does to the world around it, in order. *)
Inductive Event :=
| Stat (p : string)
| Read (p : string)
| OnError (message : string).

(** The two module-level caches and the trace of file-system calls and of
    calls of the [onError] callback. *)
Record World := mkWorld {
  templateContentCache : gmap string string;
  entryContentCache : gmap string string;
  trace : list Event;
}.

Definition emit (e : Event) (w : World) : World :=
  mkWorld (templateContentCache w) (entryContentCache w) (trace w ++ [e]).

Definition setTemplate (k v : string) (w : World) : World :=
  mkWorld (<[k := v]> (templateContentCache w)) (entryContentCache w) (trace w).

Definition setEntry (k v : string) (w : World) : World :=
  mkWorld (templateContentCache w) (<[k := v]> (entryContentCache w)) (trace w).

(** [map.get(k)] followed by the truthiness test [if (cached)]. *)
Definition getTruthy (m : gmap string string) (k : string) : option string :=
  match m !! k with
  | Some v => if Js.truthy v then Some v else None
  | None => None
  end.

(** ** Path and URL utilities *)

(** [escapeRegExp]: a backslash before every code unit of the class
    [.*+?^${}()|[\]\\]. *)
Fixpoint escapeRegExp (s : string) : string :=
  match s with
  | "" => ""
  | String a s' =>
      if existsb (Ascii.eqb a)
           ["."%char; "*"%char; "+"%char; "?"%char; "^"%char; "$"%char; "{"%char;
            "}"%char; "("%char; ")"%char; "|"%char; "["%char; "]"%char; "\"%char]
      then String "\" (String a (escapeRegExp s'))
      else String a (escapeRegExp s')
  end.

Definition toPosix (p : string) : string := Js.replaceAllChar "\" "/" p.

Definition withTrailingSlash (base : string) : string :=
  if Js.endsWith base "/" then base else base +:+ "/".

(** ** Template cache and script injector *)

(** The message handed to [onError] when reading [templatePath] throws. *)
Definition failureMessage (templatePath : string) : string :=
  "[" +:+ PLUGIN_NAME +:+ "] Failed to read template: " +:+ templatePath.

(** [onError] is [true] when the optional callback is supplied; its calls
    are recorded in the trace, and it is taken to return. *)
Definition readTemplateWithCache (disk : Disk) (templatePath : string) (onError : bool)
    (w : World) : string * World :=
  if negb (Js.truthy templatePath) then (templateFallback, w)
  else
    match getTruthy (templateContentCache w) templatePath with
    | Some cached => (cached, w)
    | None =>
        let w1 := emit (Stat templatePath) w in
        let '(html, w2) :=
          if existsSync disk templatePath then
            let w' := emit (Read templatePath) w1 in
            match readFileSync disk templatePath with
            | Some text => (text, w')
            | None =>
                ("", if onError then emit (OnError (failureMessage templatePath)) w' else w')
            end
          else ("", w1) in
        let html' := Js.or_else html templateFallback in
        (html', setTemplate templatePath html' w2)
    end.

Definition buildScriptSrc (entryPosix : string) (isDev : bool) (base : string) : string :=
  if negb isDev then entryPosix
  else
    let normalized := withTrailingSlash (Js.or_else base "/") in
    normalized +:+ Js.stripLeadingChar "/" entryPosix.

Definition isWhiteSpace (a : ascii) : bool :=
  existsb (Ascii.eqb a)
    ["009"%char; "010"%char; "011"%char; "012"%char; "013"%char; " "%char; "160"%char].

Definition notGt : Re.re := Re.Cls (fun a => negb (Ascii.eqb a ">")).
Definition anyQuote : Re.re := Re.Cls (fun a => Ascii.eqb a dq || Ascii.eqb a "'").
Definition whiteSpace : Re.re := Re.Cls isWhiteSpace.

(** The expression of [isScriptAlreadyInjected] around the reading [src] of
    the escaped script source, flag [i]. *)
Definition scriptRe (src : Re.re) : Re.re :=
  Re.Cat (Re.lit_ci "<script")
 (Re.Cat (Re.plus whiteSpace)
 (Re.Cat (Re.Star notGt)
 (Re.Cat (Re.lit_ci "type=")
 (Re.Cat anyQuote
 (Re.Cat (Re.lit_ci "module")
 (Re.Cat anyQuote
 (Re.Cat (Re.Star notGt)
 (Re.Cat (Re.lit_ci "src=")
 (Re.Cat anyQuote
 (Re.Cat src
 (Re.Cat anyQuote
 (Re.Cat (Re.Star notGt)
 (Re.Cat (Re.Cls (fun a => Ascii.eqb a ">"))
 (Re.Cat (Re.Star whiteSpace)
         (Re.lit_ci "</script>"))))))))))))))).

(** The escaped source always reads as a sequence of atoms (lemma
    [parseAtoms_escapeRegExp]); the other branch is never taken. *)
Definition isScriptAlreadyInjected (html scriptSrc : string) : bool :=
  match Re.parseAtoms (escapeRegExp scriptSrc) with
  | Some src => Re.test (scriptRe src) html
  | None => false
  end.

Definition scriptTag (scriptSrc : string) : string :=
  "<script type=" +:+ quoted "module" +:+ " src=" +:+ quoted scriptSrc +:+ "></script>".

Definition injectScriptTag (html scriptSrc : string) : string :=
  match Js.find_ci "</body>" html with
  | Some _ => Js.replaceFirst_ci "</body>" (scriptTag scriptSrc +:+ nl +:+ "  </body>") html
  | None => html +:+ nl +:+ scriptTag scriptSrc +:+ nl
  end.

(** The injection step of [loadHtmlContent]. *)
Definition injectScript (html scriptSrc : string) : string :=
  if isScriptAlreadyInjected html scriptSrc then html
  else injectScriptTag html scriptSrc.

Definition loadHtmlContent (disk : Disk) (page : Page) (isDev : bool) (base : string)
    (onError : bool) (w : World) : string * World :=
  let entryPosix := toPosix (entry page) in
  let scriptSrc := buildScriptSrc entryPosix isDev base in
  let cacheKey :=
    if isDev then withTrailingSlash (Js.or_else base "/") +:+ "|" +:+ entryPosix
    else entryPosix in
  match (if isDev then getTruthy (entryContentCache w) cacheKey else None) with
  | Some cached => (cached, w)
  | None =>
      let '(htmlRaw, w1) := readTemplateWithCache disk (template page) onError w in
      let htmlFinal := injectScript htmlRaw scriptSrc in
      (htmlFinal, if isDev then setEntry cacheKey htmlFinal w1 else w1)
  end.

(** The watcher's [change] handler of [configureServer]. *)
Definition onChange (file : string) (w : World) : World :=
  if Js.endsWith file ".html" then mkWorld ∅ ∅ (trace w) else w.

(** ** Page discovery *)

Set Warnings "-register-all".

(** A directory entry as [readdirSync] reports it with [withFileTypes]: a
    regular file, a directory with its own listing ([None] when reading it
    throws), a symbolic link with what it points to ([None] when it
    dangles), or anything else (socket, device). *)
Inductive Dirent :=
| File (n : string)
| Dir (n : string) (listing : option (list Dirent))
| Symlink (n : string) (target : option Dirent)
| Other (n : string).

(** Induction over a listing tree. *)
Section DirentInduction.

Variable P : Dirent -> Prop.
Hypothesis HFile : forall n, P (File n).
Hypothesis HDirNone : forall n, P (Dir n None).
Hypothesis HDirSome : forall n entries, Forall P entries -> P (Dir n (Some entries)).
Hypothesis HLinkNone : forall n, P (Symlink n None).
Hypothesis HLinkSome : forall n target, P target -> P (Symlink n (Some target)).
Hypothesis HOther : forall n, P (Other n).

Fixpoint Dirent_tree_ind (ent : Dirent) : P ent :=
  match ent with
  | File n => HFile n
  | Dir n None => HDirNone n
  | Dir n (Some entries) =>
      HDirSome n entries
        ((fix all (l : list Dirent) : Forall P l :=
            match l with
            | [] => @List.Forall_nil _ P
            | e :: l' => @List.Forall_cons _ P e l' (Dirent_tree_ind e) (all l')
            end) entries)
  | Symlink n None => HLinkNone n
  | Symlink n (Some target) => HLinkSome n target (Dirent_tree_ind target)
  | Other n => HOther n
  end.

End DirentInduction.

Definition direntName (ent : Dirent) : string :=
  match ent with
  | File n | Dir n _ | Symlink n _ | Other n => n
  end.

Definition isDirectory (ent : Dirent) : bool :=
  match ent with Dir _ _ => true | _ => false end.

Definition isSymbolicLink (ent : Dirent) : bool :=
  match ent with Symlink _ _ => true | _ => false end.

Definition shouldSkip (ent : Dirent) : bool :=
  let name := direntName ent in
  let isHiddenDir := isDirectory ent && Js.startsWith name "." in
  String.eqb name "node_modules"
  || String.eqb name "dist"
  || String.eqb name ".git"
  || isHiddenDir
  || isSymbolicLink ent.

(** [targets.has(name)]. *)
Definition has (targets : list string) (name : string) : bool :=
  existsb (String.eqb name) targets.

(** The body of the loop of [walk] for one entry of the directory whose
    path relative to the root is [relDir]; the matches it pushes, in order. *)
Fixpoint visit (pf : NodePath.Platform) (targets : list string) (relDir : string)
    (ent : Dirent) {struct ent} : list string :=
  if shouldSkip ent then []
  else
    let rel := NodePath.join pf [relDir; direntName ent] in
    match ent with
    | Dir _ (Some entries) => flat_map (visit pf targets rel) entries
    | Dir _ None => []
    | File n =>
        if has targets n
        then [Js.join "/" (Js.split (NodePath.sep pf) rel)]
        else []
    | Symlink _ _ | Other _ => []
    end.

Definition walk (pf : NodePath.Platform) (targets : list string) (relDir : string)
    (listing : option (list Dirent)) : list string :=
  match listing with
  | Some entries => flat_map (visit pf targets relDir) entries
  | None => []
  end.

(** The host the plugin runs on: the platform of [path], the value of
    [path.resolve(process.cwd(), pagesDir)], the listing of that directory
    and the files [existsSync] and [readFileSync] see. *)
Record Host := mkHost {
  platform : NodePath.Platform;
  absPagesDir : string;
  pagesRoot : option (list Dirent);
  disk : Disk;
}.

(** [entryFiles] is the list of target names; a single name is a list of one. *)
Definition findEntryFiles (h : Host) (entryFiles : list string) : list string :=
  walk (platform h) entryFiles "" (pagesRoot h).

(** The path of the [index.html] next to an entry of directory [entryDir]. *)
Definition colocatedTemplate (h : Host) (entryDir : string) : string :=
  NodePath.join (platform h)
    [absPagesDir h;
     Js.join (String (NodePath.sep (platform h)) "") (Js.split "/" entryDir);
     "index.html"].

(** The function mapped over the matches in [resolvePages]. *)
Definition resolveItem (h : Host) (pagesDir defaultTemplate relPosix : string) : Page :=
  let entryDir := NodePath.dirname NodePath.Posix relPosix in
  let name := if String.eqb entryDir "." then "index" else entryDir in
  let entry := "/" +:+ NodePath.join NodePath.Posix [toPosix pagesDir; relPosix] in
  let templatePath := colocatedTemplate h entryDir in
  let templatePath :=
    if negb (existsSync (disk h) templatePath) then
      if Js.truthy defaultTemplate && existsSync (disk h) defaultTemplate
      then defaultTemplate
      else ""
    else templatePath in
  mkPage name entry templatePath.

(** [Object.fromEntries(items.map(it => [it.name, it]))]: the properties
    are defined in order, a later one replacing an earlier one of the same
    key. *)
Definition fromEntries (items : list Page) : Pages :=
  fold_left (fun m it => <[name it := it]> m) items ∅.

Definition resolveItems (h : Host) (pagesDir : string) (entryFiles : list string)
    (defaultTemplate : string) : list Page :=
  map (resolveItem h pagesDir defaultTemplate) (findEntryFiles h entryFiles).

Definition resolvePages (h : Host) (pagesDir : string) (entryFiles : list string)
    (defaultTemplate : string) : Pages :=
  fromEntries (resolveItems h pagesDir entryFiles defaultTemplate).

(** Where the matches of a scan lie: for each match, in scan order, the
    names of the directories from the root down to it and its file name. *)
Fixpoint locate (targets : list string) (dirs : list string) (ent : Dirent)
    {struct ent} : list (list string * string) :=
  if shouldSkip ent then []
  else
    match ent with
    | Dir n (Some entries) => flat_map (locate targets (dirs ++ [n])) entries
    | File n => if has targets n then [(dirs, n)] else []
    | _ => []
    end.

Definition located (targets : list string) (listing : option (list Dirent))
  : list (list string * string) :=
  match listing with
  | Some entries => flat_map (locate targets []) entries
  | None => []
  end.

(** The relative path [walk] carries for the directory reached through
    [dirs]. *)
Definition relDirOf (pf : NodePath.Platform) (dirs : list string) : string :=
  Js.join (String (NodePath.sep pf) "") dirs.

(** The page name [resolvePages] derives from a match. *)
Definition derivedName (relPosix : string) : string :=
  let entryDir := NodePath.dirname NodePath.Posix relPosix in
  if String.eqb entryDir "." then "index" else entryDir.

(** The page name the specification gives an entry lying in the nested
    directories [dirs]. *)
Definition pageNameOf (dirs : list string) : string :=
  match dirs with
  | [] => "index"
  | _ :: _ => Js.join "/" dirs
  end.

Fixpoint noneOf (f : ascii -> bool) (s : string) : bool :=
  match s with
  | "" => true
  | String a s' => negb (f a) && noneOf f s'
  end.

(** A name a directory listing can hold on the platform: not empty, not
    [.] or [..], and free of the platform's separators. *)
Definition wfName (pf : NodePath.Platform) (n : string) : bool :=
  Js.truthy n && negb (String.eqb n ".") && negb (String.eqb n "..")
  && noneOf (NodePath.isPathSeparator pf) n.

Fixpoint wfDirent (pf : NodePath.Platform) (ent : Dirent) {struct ent} : bool :=
  wfName pf (direntName ent) &&
  match ent with
  | Dir _ (Some entries) => forallb (wfDirent pf) entries
  | _ => true
  end.

Definition wfListing (pf : NodePath.Platform) (listing : option (list Dirent)) : bool :=
  match listing with
  | Some entries => forallb (wfDirent pf) entries
  | None => true
  end.

(** ** Request resolver *)

Record PageMeta := mkPageMeta {
  url : string;
  pageName : string;
}.

Definition parsePageMeta (originalUrl : string) : PageMeta :=
  let parts := Js.split "?" originalUrl in
  let rawPath := match parts with p :: _ => p | [] => "" end in
  let rawQuery := match parts with _ :: q :: _ => q | _ => "" end in
  let pathOnly :=
    if String.eqb rawPath "/" || String.eqb rawPath "" then "/index.html"
    else if negb (Js.endsWith_ci rawPath ".html")
         then Js.stripTrailingRun "/" rawPath +:+ ".html"
         else rawPath in
  let url := if Js.truthy rawQuery then pathOnly +:+ "?" +:+ rawQuery else pathOnly in
  let name := Js.stripSuffix_ci (Js.stripLeadingChar "/" pathOnly) ".html" in
  mkPageMeta url name.

(** The query string of a request URL: everything after the first
    question mark, empty when there is none. *)
Fixpoint queryOf (u : string) : string :=
  match u with
  | "" => ""
  | String a u' => if Ascii.eqb a "?" then u' else queryOf u'
  end.

(** The path of a request URL: everything before the first question mark. *)
Fixpoint pathOf (u : string) : string :=
  match u with
  | "" => ""
  | String a u' => if Ascii.eqb a "?" then "" else String a (pathOf u')
  end.

(** ** Production adapter *)

(** [resolveId] of [createProdPlugin]; [None] is [null]. *)
Definition resolveId (id : string) : option string :=
  if Js.endsWith id ".html" then Some id else None.

(** [load] of [createProdPlugin] over the page index [pages]; the callback
    handed to [loadHtmlContent] is [this.error]. *)
Definition load (d : Disk) (pages : Pages) (id : string) (w : World)
  : option string * World :=
  if negb (Js.endsWith id ".html") then (None, w)
  else
    let pageName := Js.slice_to_minus id (String.length ".html") in
    match pages !! pageName with
    | Some page =>
        let '(html, w') := loadHtmlContent d page false "/" true w in
        (Some html, w')
    | None => (None, w)
    end.

(** [rollupOptions.input]: every page name mapped to its virtual document. *)
Definition input (pages : Pages) : gmap string string :=
  map_imap (fun name _ => Some (name +:+ ".html")) pages.

(** ** The first revision of [src/index.ts] *)

Module IndexTs.

Definition templateFallback : string :=
  "<!doctype html>" +:+ nl +:+
  "<html>" +:+ nl +:+
  "  <head>" +:+ nl +:+
  "    <meta charset=" +:+ quoted "utf-8" +:+ " />" +:+ nl +:+
  "  </head>" +:+ nl +:+
  "  <body>" +:+ nl +:+
  "    <div id=" +:+ quoted "app" +:+ "></div>" +:+ nl +:+
  "  </body>" +:+ nl +:+
  "</html>".

(** [console.error] is recorded as [OnError]. *)
Definition loadHtmlContent (d : Disk) (page : Page) (isDev : bool) (w : World)
  : string * World :=
  match (if isDev then getTruthy (entryContentCache w) (entry page) else None) with
  | Some entryContent => (entryContent, w)
  | None =>
      let htmlContent :=
        if Js.truthy (template page)
        then getTruthy (templateContentCache w) (template page)
        else Some templateFallback in
      let '(htmlContent, w1) :=
        match htmlContent with
        | Some html => (html, w)
        | None =>
            let w1 := emit (Stat (template page)) w in
            let '(html, w2) :=
              if existsSync d (template page) then
                let w' := emit (Read (template page)) w1 in
                match readFileSync d (template page) with
                | Some text => (text, w')
                | None =>
                    ("", emit (OnError ("Failed to read template: " +:+ template page)) w')
                end
              else ("", w1) in
            let html' := Js.or_else html templateFallback in
            (html', setTemplate (template page) html' w2)
        end in
      let htmlContent :=
        Js.replaceFirst "</body>"
          ("<script type=" +:+ quoted "module" +:+ " src="
             +:+ quoted (Js.replaceAllChar "\" "/" (entry page))
             +:+ "></script>" +:+ nl +:+ "  </body>")
          htmlContent in
      (htmlContent, if isDev then setEntry (entry page) htmlContent w1 else w1)
  end.

(** [walk] for the entry [ent] read under the name [nm]: [statSync]
    follows symbolic links and throws on a dangling one, [readdirSync]
    throws on an unreadable directory; [None] is a throw. *)
Fixpoint visitAs (pf : NodePath.Platform) (entryFile nm relDir : string)
    (ent : Dirent) {struct ent} : option (list string) :=
  let relPath := NodePath.join pf [relDir; nm] in
  match ent with
  | Symlink _ (Some target) => visitAs pf entryFile nm relDir target
  | Symlink _ None => None
  | Dir _ None => None
  | Dir _ (Some files) =>
      (fix each (l : list Dirent) : option (list string) :=
         match l with
         | [] => Some []
         | file :: l' =>
             match visitAs pf entryFile (direntName file) relPath file with
             | None => None
             | Some found =>
                 match each l' with
                 | None => None
                 | Some more => Some (found ++ more)
                 end
             end
         end) files
  | File _ | Other _ => Some (if String.eqb nm entryFile then [relPath] else [])
  end.

Definition findEntryFiles (h : Host) (entryFile : string) : option (list string) :=
  match pagesRoot h with
  | None => None
  | Some files =>
      (fix each (l : list Dirent) : option (list string) :=
         match l with
         | [] => Some []
         | file :: l' =>
             match visitAs (platform h) entryFile (direntName file) "" file with
             | None => None
             | Some found =>
                 match each l' with
                 | None => None
                 | Some more => Some (found ++ more)
                 end
             end
         end) files
  end.

Definition resolveItem (h : Host) (pagesDir defaultTemplate item : string) : Page :=
  let entryDir := NodePath.dirname (platform h) item in
  let name := if String.eqb entryDir "." then "index" else entryDir in
  let entry := "/" +:+ NodePath.join (platform h) [pagesDir; item] in
  let template := NodePath.join (platform h) [absPagesDir h; entryDir; "index.html"] in
  let template :=
    if negb (existsSync (disk h) template)
       && Js.truthy defaultTemplate && existsSync (disk h) defaultTemplate
    then defaultTemplate
    else "" in
  mkPage name entry template.

Definition resolvePages (h : Host) (pagesDir entryFile defaultTemplate : string)
  : option Pages :=
  match findEntryFiles h entryFile with
  | Some matches => Some (fromEntries (map (resolveItem h pagesDir defaultTemplate) matches))
  | None => None
  end.

Definition resolveId (id : string) : option string :=
  if Js.endsWith id ".html" then Some id else None.

Definition load (d : Disk) (pages : Pages) (id : string) (w : World)
  : option string * World :=
  if negb (Js.endsWith id ".html") then (None, w)
  else
    let name := Js.replaceFirst ".html" "" id in
    match pages !! name with
    | Some page =>
        let '(html, w') := loadHtmlContent d page false w in
        (Some html, w')
    | None => (None, w)
    end.

End IndexTs.

(** ** The statements of the specification that the code does not meet
    as worded, for comparison with what it does *)

(** A string ends with exactly one [c]. *)
Definition endsWithExactlyOne (c : ascii) (s : string) : bool :=
  Js.endsWith s (String c "") && negb (Js.endsWith s (String c (String c ""))).

(** The development script source as the specification words it: a base
    ending with exactly one separator, followed by the entry path without
    its leading separator. *)
Definition devScriptSrcAsSpecified (entryPath base : string) : Prop :=
  ∃ normalized,
    endsWithExactlyOne "/" normalized = true
    ∧ buildScriptSrc entryPath true base = normalized +:+ Js.stripLeadingChar "/" entryPath.

(** The messages the [onError] callback received. *)
Fixpoint errorsOf (t : list Event) : list string :=
  match t with
  | [] => []
  | OnError m :: t' => m :: errorsOf t'
  | _ :: t' => errorsOf t'
  end.

(** A read of [templatePath] that fails is reported, as the specification
    words it: nothing can be read at the path, and the callback is called. *)
Definition readFailureReported (d : Disk) (templatePath : string) (w : World) : Prop :=
  readFileSync d templatePath = None →
  errorsOf (trace (readTemplateWithCache d templatePath true w).2) ≠ errorsOf (trace w).

(** The template text a render takes from disk for [templatePath], and the
    events of taking it. *)
Definition templateOnDisk (d : Disk) (templatePath : string) : string :=
  if Js.truthy templatePath then
    match d templatePath with
    | Content text => Js.or_else text templateFallback
    | _ => templateFallback
    end
  else templateFallback.

Definition diskAccess (d : Disk) (templatePath : string) (onError : bool) : list Event :=
  if Js.truthy templatePath then
    match d templatePath with
    | Missing => [Stat templatePath]
    | Unreadable =>
        [Stat templatePath; Read templatePath]
          ++ (if onError then [OnError (failureMessage templatePath)] else [])
    | Content _ => [Stat templatePath; Read templatePath]
    end
  else [].

Definition isDollar (a : ascii) : bool := Ascii.eqb a "$".

Definition isQuestionMark (a : ascii) : bool := Ascii.eqb a "?".

(** The canonical document path of a request path, as the specification
    words it. *)
Definition canonicalPath (p : string) : string :=
  if String.eqb p "/" || String.eqb p "" then "/index.html"
  else if Js.endsWith_ci p ".html" then p
  else Js.stripTrailingRun "/" p +:+ ".html".

(** The canonical URL that keeps the whole query string. *)
Definition canonicalUrl (u : string) : string :=
  if Js.truthy (queryOf u)
  then canonicalPath (pathOf u) +:+ "?" +:+ queryOf u
  else canonicalPath (pathOf u).

(** ** Sample hosts *)

(** A site with a default template and one page directory [about] holding
    its own [index.html] and two entry files. *)
Definition siteDisk : Disk := fun p =>
  if String.eqb p "/site/src/pages/about/index.html"
  then Content "<html><body><h1>About</h1></body></html>"
  else if String.eqb p "src/index.html"
  then Content "<html><body></body></html>"
  else Missing.

Definition siteListing : option (list Dirent) :=
  Some [Dir "about" (Some [File "index.html"; File "main.ts"; File "main.tsx"])].

Definition siteHost : Host :=
  mkHost NodePath.Posix "/site/src/pages" siteListing siteDisk.

(** A pages root with an entry of its own and one two directories down. *)
Definition nestedListing : option (list Dirent) :=
  Some [File "main.ts"; Dir "a" (Some [Dir "b" (Some [File "main.ts"])])].

Definition nestedHost (pf : NodePath.Platform) : Host :=
  mkHost pf
    (match pf with
     | NodePath.Posix => "/site/src/pages"
     | NodePath.Win32 => "C:\site\src\pages"
     end)
    nestedListing (fun _ => Missing).

Definition isSlash : ascii → bool := NodePath.isPathSeparator NodePath.Posix.

(** ** Request filter of the development adapter *)

(** An expression matched against the whole of [s]. *)
Fixpoint matchesb (r : Re.re) (s : string) : bool :=
  match s with
  | "" => Re.nullable r
  | String a s' => matchesb (Re.deriv a r) s'
  end.

(** [r.test(s)] for an expression that ends with the anchor [$]: a match
    may start at any position and runs to the end of [s]. *)
Fixpoint testToEnd (r : Re.re) (s : string) : bool :=
  matchesb r s ||
  match s with
  | "" => false
  | String _ s' => testToEnd r s'
  end.

(** The class [[a-z0-9]] under the [i] flag. *)
Definition isAlnum_ci (a : ascii) : bool :=
  let n := nat_of_ascii (Js.canonicalize a) in
  ((65 <=? n) && (n <=? 90) || (48 <=? n) && (n <=? 57))%nat.

(** The dot of a pattern: any code unit but a line terminator. *)
Definition isDotChar (a : ascii) : bool :=
  negb (Ascii.eqb a "010" || Ascii.eqb a "013").

(** The optional group of both expressions below: a question mark and
    whatever follows it on the line. *)
Definition queryTail : Re.re :=
  Re.Alt (Re.Cat (Re.Cls (fun a => Ascii.eqb a "?")) (Re.Star (Re.Cls isDotChar))) Re.Eps.

(** The first expression of [isViteInternalOrNonHtmlAsset], flag [i],
    without its end anchor: a dot, one or more of [a-z0-9], the optional
    group. *)
Definition assetRe : Re.re :=
  Re.Cat (Re.Cls (fun a => Ascii.eqb a "."))
    (Re.Cat (Re.plus (Re.Cls isAlnum_ci)) queryTail).

(** The second expression, flag [i], without its end anchor: the literal
    [.html], the optional group. *)
Definition htmlRe : Re.re := Re.Cat (Re.lit_ci ".html") queryTail.

Definition isViteInternalOrNonHtmlAsset (u : string) : bool :=
  (Js.startsWith u "/@vite/" || Js.startsWith u "/@id/")
  || (testToEnd assetRe u && negb (testToEnd htmlRe u)).

(** A header value: [string | string[] | undefined]. *)
Inductive Header :=
| HeaderString (s : string)
| HeaderList (l : list string)
| HeaderAbsent.

Definition acceptString (accept : Header) : string :=
  match accept with
  | HeaderString s => s
  | HeaderList l => Js.join "," l
  | HeaderAbsent => ""
  end.

(** [s.includes(sub)]. *)
Fixpoint includes (s sub : string) : bool :=
  if Js.startsWith s sub then true
  else match s with
       | "" => false
       | String _ s' => includes s' sub
       end.

(** ** The page listing of the development adapter *)

(** [Object.keys(pages).sort()]: the names in the order of their code
    units. *)
Definition sortedNames (pages : Pages) : list string :=
  merge_sort String.le (map fst (map_to_list pages)).

Definition pageLink (n : string) : string :=
  "<li><a href=" +:+ quoted ("/" +:+ n +:+ ".html") +:+ ">" +:+ n +:+ "</a></li>".

(** The text of the listing page before and after the list items. *)
Definition notFoundHead : string :=
  "<!doctype html>" +:+ nl +:+
  "<html>" +:+ nl +:+
  "  <head>" +:+ nl +:+
  "    <meta charset=" +:+ quoted "utf-8" +:+ "/>" +:+ nl +:+
  "    <title>404 - Page Not Found</title>" +:+ nl +:+
  "  </head>" +:+ nl +:+
  "  <body>" +:+ nl +:+
  "    <h1>404 - Page Not Found</h1>" +:+ nl +:+
  "    <p>Known pages:</p>" +:+ nl +:+
  "    <ul>" +:+ nl +:+
  "      ".

Definition notFoundTail : string :=
  nl +:+
  "    </ul>" +:+ nl +:+
  "  </body>" +:+ nl +:+
  "</html>".

Definition render404 (pages : Pages) : string :=
  let links := Js.join nl (map pageLink (sortedNames pages)) in
  notFoundHead
    +:+ Js.or_else links "<li><em>No pages discovered</em></li>"
    +:+ notFoundTail.

(** ** The middleware of the development adapter *)

(** What the middleware reads of a request; [None] is [undefined]. *)
Record Request := mkRequest {
  reqMethod : option string;
  reqOriginalUrl : option string;
  reqUrl : option string;
  reqAccept : Header;
}.

(** [value || fallback] for a value that may be [undefined]. *)
Definition orDefault (value : option string) (fallback : string) : string :=
  match value with
  | Some s => Js.or_else s fallback
  | None => fallback
  end.

(** What the middleware does with a request: hand it to the next handler,
    or write a response. *)
Inductive Outcome :=
| Next
| Respond (status : nat) (contentType : string) (body : string).

Definition htmlContentType : string := "text/html; charset=utf-8".

(** The request handler of [configureServer] over the current page index
    [pages], the configured [server.config.base] and the server's
    [transformIndexHtml], taken to return. The logger's [error] is the
    callback handed to [loadHtmlContent]. *)
Definition middleware (d : Disk) (pages : Pages) (configBase : string)
    (transformIndexHtml : string -> string -> string) (req : Request) (w : World)
  : Outcome * World :=
  let method := orDefault (reqMethod req) "GET" in
  if negb (String.eqb method "GET") && negb (String.eqb method "HEAD") then (Next, w)
  else
    let urlRaw := orDefault (reqOriginalUrl req) (orDefault (reqUrl req) "") in
    if isViteInternalOrNonHtmlAsset urlRaw then (Next, w)
    else
      let isHtml :=
        includes (acceptString (reqAccept req)) "text/html"
        || includes (acceptString (reqAccept req)) "*/*" in
      if negb isHtml then (Next, w)
      else
        let meta := parsePageMeta urlRaw in
        match pages !! pageName meta with
        | None => (Respond 404 htmlContentType (render404 pages), w)
        | Some page =>
            let base := Js.or_else configBase "/" in
            let '(htmlRaw, w') := loadHtmlContent d page true base true w in
            (Respond 200 htmlContentType (transformIndexHtml (url meta) htmlRaw), w')
        end.

(** ** The debounced rediscovery of the development adapter *)

(** The page index the adapter holds, the timer last set by
    [scheduleRefreshPages], the timers of the runtime that are armed, and
    the next timer the runtime hands out. *)
Record Refresher := mkRefresher {
  current : Pages;
  refreshTimer : option nat;
  armed : list nat;
  nextTimer : nat;
}.

(** [clearTimeout(t)]. *)
Definition clearTimeout (t : nat) (timers : list nat) : list nat :=
  List.filter (fun t' => negb (Nat.eqb t' t)) timers.

Definition scheduleRefreshPages (r : Refresher) : Refresher :=
  let timers :=
    match refreshTimer r with
    | Some t => clearTimeout t (armed r)
    | None => armed r
    end in
  mkRefresher (current r) (Some (nextTimer r)) (timers ++ [nextTimer r]) (S (nextTimer r)).

(** The runtime runs the callback of timer [t] on the host [h]: an armed
    timer is disarmed and the index replaced by a fresh scan; a timer that
    is not armed does nothing. *)
Definition timerFires (pagesDir : string) (entryFiles : list string) (defaultTemplate : string)
    (t : nat) (h : Host) (r : Refresher) : Refresher :=
  if existsb (Nat.eqb t) (armed r)
  then mkRefresher (resolvePages h pagesDir entryFiles defaultTemplate)
         (refreshTimer r) (clearTimeout t (armed r)) (nextTimer r)
  else r.

(** What happens to the refresher: a watcher event that asks for a rescan,
    or a timer of the runtime running. *)
Inductive RefreshEvent :=
| StructureChanged
| TimerFired (t : nat) (h : Host).

Definition refreshStep (pagesDir : string) (entryFiles : list string)
    (defaultTemplate : string) (r : Refresher) (e : RefreshEvent) : Refresher :=
  match e with
  | StructureChanged => scheduleRefreshPages r
  | TimerFired t h => timerFires pagesDir entryFiles defaultTemplate t h r
  end.

(** The refresher after [configureServer]: the index of the first scan and
    the initial call of [scheduleRefreshPages]. *)
Definition initialRefresher (initial : Pages) : Refresher :=
  scheduleRefreshPages (mkRefresher initial None [] 0).

(** At most the timer last set is armed. *)
Definition oneTimerArmed (r : Refresher) : Prop :=
  armed r = []
  ∨ ∃ t, armed r = [t] ∧ refreshTimer r = Some t ∧ t < nextTimer r.

(** ** Further notions used in the proofs *)

(** The POSIX-relative path of a match lying in [dirs] under the name [f]. *)
Definition matchPath (l : list string * string) : string :=
  Js.join "/" (l.1 ++ [l.2]).

(** The names [walk] never descends into or matches. *)
Definition isSkippedName (n : string) : bool :=
  String.eqb n "node_modules" || String.eqb n "dist" || String.eqb n ".git".

(** Two strings of the same length that agree up to case. *)
Definition eq_ci (m s : string) : bool :=
  (String.length m =? String.length s)%nat && Js.startsWith_ci m s.


(** The listing with every unreadable directory taken for an empty one. *)
Fixpoint unreadableAsEmpty (ent : Dirent) {struct ent} : Dirent :=
  match ent with
  | Dir n None => Dir n (Some [])
  | Dir n (Some entries) => Dir n (Some (map unreadableAsEmpty entries))
  | _ => ent
  end.

(** * Proofs *)

(** ** Strings *)

Section StringFacts.

Lemma append_assoc (a b c : string) : (a +:+ b) +:+ c = a +:+ (b +:+ c).
Proof. induction a as [|x a IH]; simpl; [reflexivity | by rewrite IH]. Qed.

Lemma append_nil_r (a : string) : a +:+ "" = a.
Proof. induction a as [|x a IH]; simpl; [reflexivity | by rewrite IH]. Qed.

Lemma length_append (a b : string) :
  String.length (a +:+ b) = String.length a + String.length b.
Proof. induction a as [|x a IH]; simpl; [reflexivity | by rewrite IH]. Qed.

Lemma append_cancel_r (a b c : string) : a +:+ c = b +:+ c → a = b.
Proof.
  revert b. induction a as [|x a IH]; intros [|y b] H; simpl in H.
  - reflexivity.
  - apply (f_equal String.length) in H. simpl in H. rewrite length_append in H. lia.
  - apply (f_equal String.length) in H. simpl in H. rewrite length_append in H. lia.
  - injection H as -> H. f_equal. by apply IH.
Qed.

Lemma take_append (a b : string) : Js.take (String.length a) (a +:+ b) = a.
Proof. induction a as [|x a IH]; simpl; [by destruct b | by rewrite IH]. Qed.

Lemma drop_append (a b : string) : Js.drop (String.length a) (a +:+ b) = b.
Proof. induction a as [|x a IH]; simpl; [by destruct b | done]. Qed.

Lemma endsWith_unfold (s suf : string) :
  Js.endsWith s suf =
    if String.eqb s suf then true
    else match s with "" => false | String _ s' => Js.endsWith s' suf end.
Proof. by destruct s. Qed.

Lemma endsWith_iff (s suf : string) :
  Js.endsWith s suf = true ↔ ∃ p, s = p +:+ suf.
Proof.
  induction s as [|x s IH]; rewrite endsWith_unfold.
  - destruct (String.eqb_spec "" suf) as [<-|Hne].
    + split; [by exists "" | done].
    + split; [done |]. intros [[|y p] Hp]; simpl in Hp; [by subst | discriminate].
  - destruct (String.eqb_spec (String x s) suf) as [<-|Hne].
    + split; [by exists "" | done].
    + rewrite IH. split.
      * intros [p ->]. by exists (String x p).
      * intros [[|y p] Hp]; simpl in Hp; [by subst |].
        injection Hp as -> ->. by exists p.
Qed.

Lemma endsWith_append (p suf : string) : Js.endsWith (p +:+ suf) suf = true.
Proof. apply endsWith_iff. by exists p. Qed.


Lemma noneOf_append f (a b : string) :
  noneOf f (a +:+ b) = noneOf f a && noneOf f b.
Proof. induction a as [|x a IH]; simpl; [done | by rewrite IH, andb_assoc]. Qed.

End StringFacts.

(** ** Script source *)

Lemma truthy_true (s : string) : Js.truthy s = true ↔ s ≠ "".
Proof. destruct s; simpl; split; congruence. Qed.

Lemma truthy_false (s : string) : Js.truthy s = false ↔ s = "".
Proof. destruct s; simpl; split; congruence. Qed.

Lemma endsWith_longer (s : string) (c : ascii) :
  Js.endsWith s (String c (String c "")) = true → Js.endsWith s (String c "") = true.
Proof.
  rewrite !endsWith_iff. intros [p ->]. exists (p +:+ String c "").
  by rewrite append_assoc.
Qed.

Lemma withTrailingSlash_ends (b : string) : Js.endsWith (withTrailingSlash b) "/" = true.
Proof.
  unfold withTrailingSlash. destruct (Js.endsWith b "/") eqn:E; [done |].
  apply endsWith_append.
Qed.

Lemma withTrailingSlash_exactly_one (b : string) :
  endsWithExactlyOne "/" (withTrailingSlash b) = negb (Js.endsWith b "//").
Proof.
  unfold endsWithExactlyOne. rewrite withTrailingSlash_ends. simpl.
  unfold withTrailingSlash. destruct (Js.endsWith b "/") eqn:E; [done |].
  assert (Js.endsWith b "//" = false) as ->.
  { destruct (Js.endsWith b "//") eqn:E2; [| done].
    apply endsWith_longer in E2. congruence. }
  destruct (Js.endsWith (b +:+ "/") "//") eqn:E3; [| done].
  apply endsWith_iff in E3 as [p Hp].
  change "//" with ("/" +:+ "/") in Hp. rewrite <- append_assoc in Hp.
  apply append_cancel_r in Hp. subst b.
  by rewrite endsWith_append in E.
Qed.

(** C8, as amended: in production the script source is the entry path; in
    development it is the base (or [/] for an empty base), with a separator
    appended only when it does not end with one already, followed by the
    entry path without one leading separator. The base so normalized ends
    with a separator, and with exactly one unless the base itself ends
    with two. *)
Theorem buildScriptSrc_spec (entryPath base : string) :
  let b := Js.or_else base "/" in
  buildScriptSrc entryPath false base = entryPath
  ∧ buildScriptSrc entryPath true base
    = withTrailingSlash b +:+ Js.stripLeadingChar "/" entryPath
  ∧ withTrailingSlash b = (if Js.endsWith b "/" then b else b +:+ "/")
  ∧ Js.endsWith (withTrailingSlash b) "/" = true
  ∧ endsWithExactlyOne "/" (withTrailingSlash b) = negb (Js.endsWith base "//").
Proof.
  cbv zeta. repeat split.
  - apply withTrailingSlash_ends.
  - rewrite withTrailingSlash_exactly_one. by destruct base.
Qed.

(** C8, as worded, fails for a base that ends with two separators: they
    are both kept in front of the entry path. *)
Lemma buildScriptSrc_keeps_doubled_separator :
  buildScriptSrc "/src/pages/main.ts" true "/app//" = "/app//src/pages/main.ts"
  ∧ ¬ devScriptSrcAsSpecified "/src/pages/main.ts" "/app//".
Proof.
  split; [reflexivity |].
  intros [n [He Hb]]. vm_compute in Hb.
  apply (append_cancel_r "/app//" n "src/pages/main.ts") in Hb. subst n.
  vm_compute in He. discriminate.
Qed.

(** ** Template cache *)

Lemma readTemplateWithCache_sentinel (d : Disk) (onError : bool) (w : World) :
  readTemplateWithCache d "" onError w = (templateFallback, w).
Proof. reflexivity. Qed.

Lemma readTemplateWithCache_hit (d : Disk) (p c : string) (onError : bool) (w : World) :
  p ≠ "" → getTruthy (templateContentCache w) p = Some c →
  readTemplateWithCache d p onError w = (c, w).
Proof.
  intros Hp Hc. unfold readTemplateWithCache.
  apply truthy_true in Hp. by rewrite Hp, Hc.
Qed.

Lemma readTemplateWithCache_miss (d : Disk) (p : string) (onError : bool) (w : World) :
  p ≠ "" → getTruthy (templateContentCache w) p = None →
  readTemplateWithCache d p onError w
  = (templateOnDisk d p,
     mkWorld (<[p := templateOnDisk d p]> (templateContentCache w))
       (entryContentCache w) (trace w ++ diskAccess d p onError)).
Proof.
  intros Hp Hc. unfold readTemplateWithCache, templateOnDisk, diskAccess.
  apply truthy_true in Hp. rewrite Hp, Hc. simpl.
  unfold existsSync, readFileSync.
  destruct (d p) as [| |text]; simpl.
  - reflexivity.
  - destruct onError; unfold setTemplate, emit; simpl; by rewrite <- !app_assoc.
  - unfold setTemplate, emit; simpl. by rewrite <- !app_assoc.
Qed.

(** C6, as amended: reading a template always returns. The empty path
    gives the built-in fallback and leaves the world as it is; a cached
    text is returned as it is; otherwise the text on disk, or the fallback
    when the path is missing, cannot be read or is empty, is returned and
    cached under the path. The callback is called exactly when the path
    exists and reading it throws; a missing path is not reported. *)
Theorem readTemplateWithCache_spec (d : Disk) (p : string) (onError : bool) (w : World) :
  let r := readTemplateWithCache d p onError w in
  (p = "" → r = (templateFallback, w))
  ∧ (∀ c, p ≠ "" → getTruthy (templateContentCache w) p = Some c → r = (c, w))
  ∧ (p ≠ "" → getTruthy (templateContentCache w) p = None →
     templateContentCache r.2 = <[p := r.1]> (templateContentCache w)
     ∧ entryContentCache r.2 = entryContentCache w
     ∧ match d p with
       | Content text =>
           r.1 = Js.or_else text templateFallback
           ∧ trace r.2 = trace w ++ [Stat p; Read p]
       | Unreadable =>
           r.1 = templateFallback
           ∧ trace r.2
             = trace w ++ [Stat p; Read p]
                 ++ (if onError then [OnError (failureMessage p)] else [])
       | Missing =>
           r.1 = templateFallback ∧ trace r.2 = trace w ++ [Stat p]
       end).
Proof.
  cbv zeta. split; [| split].
  - intros ->. apply readTemplateWithCache_sentinel.
  - intros c Hp Hc. by apply readTemplateWithCache_hit.
  - intros Hp Hc. rewrite (readTemplateWithCache_miss d p onError w Hp Hc). simpl.
    split; [done |]. split; [done |].
    unfold templateOnDisk, diskAccess. apply truthy_true in Hp. rewrite Hp.
    by destruct (d p).
Qed.

(** C6, as worded, fails for a missing file: the fallback is returned and
    cached, and the callback is not called. *)
Lemma missing_template_is_not_reported :
  let d : Disk := fun _ => Missing in
  let w := mkWorld ∅ ∅ [] in
  readTemplateWithCache d "/site/src/index.html" true w
  = (templateFallback,
     mkWorld {[ "/site/src/index.html" := templateFallback ]} ∅
       [Stat "/site/src/index.html"])
  ∧ ¬ readFailureReported d "/site/src/index.html" w.
Proof.
  cbv zeta. split.
  - rewrite readTemplateWithCache_miss; [| done | done]. reflexivity.
  - intros H. apply H; reflexivity.
Qed.

(** What reading a template does to the two caches, whatever the case. *)
Lemma readTemplateWithCache_frame (d : Disk) (p : string) (onError : bool) (w : World) :
  let r := readTemplateWithCache d p onError w in
  entryContentCache r.2 = entryContentCache w
  ∧ (templateContentCache r.2 = templateContentCache w
     ∨ templateContentCache r.2 = <[p := r.1]> (templateContentCache w)).
Proof.
  cbv zeta. destruct (decide (p = "")) as [->|Hp].
  { rewrite readTemplateWithCache_sentinel. auto. }
  destruct (getTruthy (templateContentCache w) p) as [c|] eqn:Hc.
  - rewrite (readTemplateWithCache_hit d p c onError w Hp Hc). auto.
  - rewrite (readTemplateWithCache_miss d p onError w Hp Hc). simpl. auto.
Qed.

(** Reading a template never looks at the assembled-HTML cache. *)
Lemma readTemplateWithCache_ignores_entry_cache (d : Disk) (p : string) (onError : bool)
    (tc ec ec' : gmap string string) (t : list Event) :
  (readTemplateWithCache d p onError (mkWorld tc ec t)).1
  = (readTemplateWithCache d p onError (mkWorld tc ec' t)).1.
Proof.
  destruct (decide (p = "")) as [->|Hp]; [done |].
  destruct (getTruthy tc p) as [c|] eqn:Hc.
  - by rewrite (readTemplateWithCache_hit d p c onError (mkWorld tc ec t) Hp Hc),
       (readTemplateWithCache_hit d p c onError (mkWorld tc ec' t) Hp Hc).
  - by rewrite (readTemplateWithCache_miss d p onError (mkWorld tc ec t) Hp Hc),
       (readTemplateWithCache_miss d p onError (mkWorld tc ec' t) Hp Hc).
Qed.

(** ** Rendering *)

(** C10: a production render leaves the assembled-HTML cache exactly as it
    was, does not depend on what that cache holds, and changes the template
    cache at most at the page's template path. *)
Theorem loadHtmlContent_prod_leaves_dev_cache (d : Disk) (page : Page) (base : string)
    (onError : bool) (w : World) :
  let r := loadHtmlContent d page false base onError w in
  entryContentCache r.2 = entryContentCache w
  ∧ (templateContentCache r.2 = templateContentCache w
     ∨ ∃ html, templateContentCache r.2 = <[template page := html]> (templateContentCache w))
  ∧ ∀ ec, (loadHtmlContent d page false base onError
             (mkWorld (templateContentCache w) ec (trace w))).1 = r.1.
Proof.
  cbv zeta. unfold loadHtmlContent. simpl.
  pose proof (readTemplateWithCache_frame d (template page) onError w) as Hf.
  cbv zeta in Hf.
  destruct (readTemplateWithCache d (template page) onError w) as [htmlRaw w1] eqn:Hr.
  simpl in *. destruct Hf as [He Ht]. split; [done |]. split.
  - destruct Ht as [Ht|Ht]; [by left | right; eauto].
  - intros ec.
    pose proof (readTemplateWithCache_ignores_entry_cache d (template page) onError
                  (templateContentCache w) ec (entryContentCache w) (trace w)) as Hi.
    destruct w as [tc ec0 t]. simpl in *. rewrite Hr in Hi.
    destruct (readTemplateWithCache d (template page) onError (mkWorld tc ec t))
      as [htmlRaw' w1']. simpl in *. by subst.
Qed.

(** C7: a change event for a path ending in [.html] empties both caches,
    so the next development render of any page takes its template from
    disk: it returns the text on disk (or the fallback) with the script
    injected, whatever was cached before, and the render's file-system
    calls are appended to the trace. *)
Theorem html_change_invalidates (file : string) (w : World) :
  Js.endsWith file ".html" = true →
  templateContentCache (onChange file w) = ∅
  ∧ entryContentCache (onChange file w) = ∅
  ∧ ∀ (d : Disk) (page : Page) (base : string) (onError : bool),
      let r := loadHtmlContent d page true base onError (onChange file w) in
      r.1 = injectScript (templateOnDisk d (template page))
              (buildScriptSrc (toPosix (entry page)) true base)
      ∧ trace r.2 = trace w ++ diskAccess d (template page) onError.
Proof.
  intros Hf. unfold onChange. rewrite Hf. simpl. split; [done |]. split; [done |].
  intros d page base onError. cbv zeta. unfold loadHtmlContent. simpl.
  unfold getTruthy at 1. rewrite lookup_empty.
  destruct (decide (template page = "")) as [Hp|Hp].
  - rewrite Hp, readTemplateWithCache_sentinel. simpl.
    unfold templateOnDisk, diskAccess. simpl. by rewrite app_nil_r.
  - rewrite (readTemplateWithCache_miss d (template page) onError _ Hp); [done |].
    unfold getTruthy. simpl. by rewrite lookup_empty.
Qed.

(** A template edited on disk between two renders: the first render caches
    the old text, the change event drops it, the second render shows the
    new text. *)
Lemma html_change_invalidates_witness :
  let w := mkWorld {[ "/site/src/index.html" := "<body>old</body>" ]}
             {[ "/|/src/pages/main.ts" := "<body>old, injected</body>" ]} [] in
  templateContentCache (onChange "/site/src/index.html" w) = ∅
  ∧ entryContentCache (onChange "/site/src/index.html" w) = ∅
  ∧ ∀ (d : Disk) (page : Page) (base : string) (onError : bool),
      let r := loadHtmlContent d page true base onError
                 (onChange "/site/src/index.html" w) in
      r.1 = injectScript (templateOnDisk d (template page))
              (buildScriptSrc (toPosix (entry page)) true base)
      ∧ trace r.2 = trace w ++ diskAccess d (template page) onError.
Proof.
  exact (html_change_invalidates "/site/src/index.html" _ eq_refl).
Defined.


(** ** Regular expressions: the search finds what the expression matches *)

Section RegexFacts.

Import Re.

Lemma matches_void (s : string) : ¬ matches Void s.
Proof. intros H. inversion H. Qed.

Lemma matches_eps (s : string) : matches Eps s → s = "".
Proof. intros H. by inversion H. Qed.

Lemma cat_sound (r1 r2 : re) (s1 s2 : string) :
  matches r1 s1 → matches r2 s2 → matches (cat r1 r2) (s1 +:+ s2).
Proof.
  intros H1 H2.
  destruct r1; try (by apply matches_void in H1);
    destruct r2; try (by apply matches_void in H2); simpl;
    try (apply matches_eps in H1 as ->; exact H2);
    by constructor.
Qed.

Lemma alt_sound_l (r1 r2 : re) (s : string) : matches r1 s → matches (alt r1 r2) s.
Proof.
  intros H. destruct r1; try (by apply matches_void in H);
    destruct r2; simpl; try exact H; by apply MAltL.
Qed.

Lemma alt_sound_r (r1 r2 : re) (s : string) : matches r2 s → matches (alt r1 r2) s.
Proof.
  intros H. destruct r2; try (by apply matches_void in H);
    destruct r1; simpl; try exact H; by apply MAltR.
Qed.

Lemma matches_nullable (r : re) (s : string) : matches r s → s = "" → nullable r = true.
Proof.
  induction 1 as [| | r1 r2 s1 s2 _ IH1 _ IH2 | r1 r2 s _ IH | r1 r2 s _ IH | |];
    intros Hs; simpl; try done.
  - destruct s1; [| discriminate]. simpl in Hs. by rewrite IH1, IH2.
  - by rewrite IH.
  - rewrite IH by done. apply orb_true_r.
Qed.

Lemma matches_deriv (r : re) (s0 : string) :
  matches r s0 → ∀ a s, s0 = String a s → matches (deriv a r) s.
Proof.
  induction 1 as [| f c Hc | r1 r2 s1 s2 H1 IH1 H2 IH2 | r1 r2 s0 _ IH
                  | r1 r2 s0 _ IH | | r1 s1 s2 H1 IH1 H2 IH2];
    intros a s Hs; simpl.
  - discriminate.
  - injection Hs as -> <-. rewrite Hc. constructor.
  - destruct s1 as [|b s1]; simpl in Hs.
    + rewrite (matches_nullable r1 "" H1 eq_refl).
      apply alt_sound_r. by apply IH2.
    + injection Hs as -> <-.
      assert (matches (cat (deriv a r1) r2) (s1 +:+ s2)) as Hc
        by (apply cat_sound; [by apply IH1 | done]).
      destruct (nullable r1); [by apply alt_sound_l | done].
  - apply alt_sound_l. by apply IH.
  - apply alt_sound_r. by apply IH.
  - discriminate.
  - destruct s1 as [|b s1]; simpl in Hs.
    + by apply IH2.
    + injection Hs as -> <-. apply cat_sound; [by apply IH1 | done].
Qed.

Lemma prefixb_complete (s : string) : ∀ (r : re) (t : string),
  matches r s → prefixb r (s +:+ t) = true.
Proof.
  induction s as [|a s IH]; intros r t H.
  - simpl. destruct t; simpl; by rewrite (matches_nullable r "" H eq_refl).
  - simpl. rewrite (IH (deriv a r) t); [apply orb_true_r |].
    by apply (matches_deriv r (String a s)).
Qed.

Lemma test_unfold (r : re) (s : string) :
  test r s = prefixb r s || match s with "" => false | String _ s' => test r s' end.
Proof. by destruct s. Qed.

Lemma test_complete (r : re) (p s t : string) :
  matches r s → test r (p +:+ s +:+ t) = true.
Proof.
  intros H. induction p as [|a p IH]; rewrite test_unfold.
  - simpl. by rewrite (prefixb_complete s r t H).
  - simpl. rewrite IH. apply orb_true_r.
Qed.

(** And the search finds nothing else. *)
Lemma cat_inv (r1 r2 : re) (s : string) : matches (cat r1 r2) s → matches (Cat r1 r2) s.
Proof.
  destruct r1; destruct r2; simpl; intros H; try done;
    try (by apply matches_void in H);
    by apply (MCat Eps _ "" s); [constructor |].
Qed.

Lemma alt_inv (r1 r2 : re) (s : string) :
  matches (alt r1 r2) s → matches r1 s ∨ matches r2 s.
Proof.
  destruct r1; destruct r2; simpl; intros H; auto; by inversion H; auto.
Qed.

Lemma nullable_sound (r : re) : nullable r = true → matches r "".
Proof.
  induction r as [| | f | r1 IH1 r2 IH2 | r1 IH1 r2 IH2 | r IH]; simpl; intros H;
    try done.
  - constructor.
  - apply andb_true_iff in H as [H1 H2]. apply (MCat r1 r2 "" ""); auto.
  - apply orb_true_iff in H as [H|H]; [apply MAltL | apply MAltR]; auto.
  - constructor.
Qed.

Lemma deriv_sound (a : ascii) (r : re) :
  ∀ s, matches (deriv a r) s → matches r (String a s).
Proof.
  induction r as [| | f | r1 IH1 r2 IH2 | r1 IH1 r2 IH2 | r IH]; simpl; intros s H.
  - by apply matches_void in H.
  - by apply matches_void in H.
  - destruct (f a) eqn:Hf; [| by apply matches_void in H].
    apply matches_eps in H as ->. by constructor.
  - assert (matches (cat (deriv a r1) r2) s → matches (Cat r1 r2) (String a s)) as Hcat.
    { intros Hc. apply cat_inv in Hc. inversion Hc as [| | ? ? s1 s2 H1 H2 | | | |]; subst.
      apply (MCat r1 r2 (String a s1) s2); auto. }
    destruct (nullable r1) eqn:Hn; [| auto].
    apply alt_inv in H as [H|H]; [auto |].
    apply (MCat r1 r2 "" (String a s)); [by apply nullable_sound | auto].
  - apply alt_inv in H as [H|H]; [apply MAltL | apply MAltR]; auto.
  - apply cat_inv in H. inversion H as [| | ? ? s1 s2 H1 H2 | | | |]; subst.
    apply (MStarApp r (String a s1) s2); auto.
Qed.

Lemma prefixb_sound (s : string) : ∀ r,
  prefixb r s = true → ∃ m t, s = m +:+ t ∧ matches r m.
Proof.
  induction s as [|a s IH]; intros r; simpl; rewrite ?orb_false_r.
  - intros H. exists "", "". split; [done | by apply nullable_sound].
  - intros H. apply orb_true_iff in H as [H|H].
    + exists "", (String a s). split; [done | by apply nullable_sound].
    + apply IH in H as (m & t & -> & Hm).
      exists (String a m), t. split; [done | by apply deriv_sound].
Qed.

(** [test] decides whether some substring matches. *)
Lemma test_spec (r : re) (s : string) :
  test r s = true ↔ ∃ p m t, s = p +:+ m +:+ t ∧ matches r m.
Proof.
  split.
  - induction s as [|a s IH]; rewrite test_unfold; rewrite ?orb_false_r.
    + intros H. apply prefixb_sound in H as (m & t & -> & Hm). by exists "", m, t.
    + intros H. apply orb_true_iff in H as [H|H].
      * apply prefixb_sound in H as (m & t & -> & Hm). by exists "", m, t.
      * apply IH in H as (p & m & t & -> & Hm). by exists (String a p), m, t.
  - intros (p & m & t & -> & Hm). by apply test_complete.
Qed.

Lemma eqb_ci_refl (a : ascii) : Js.eqb_ci a a = true.
Proof. apply Ascii.eqb_refl. Qed.

Lemma matches_lit_ci (s : string) : matches (lit_ci s) s.
Proof.
  induction s as [|a s IH]; simpl; [constructor |].
  apply (MCat _ _ (String a "") s); [| done].
  constructor. apply eqb_ci_refl.
Qed.

(** Steps to match a sequence from left to right. *)
Lemma matches_lit_then (p : string) (r : re) (s : string) :
  matches r s → matches (Cat (lit_ci p) r) (p +:+ s).
Proof. intros H. constructor; [apply matches_lit_ci | done]. Qed.

Lemma matches_cls_then (f : ascii → bool) (a : ascii) (r : re) (s : string) :
  f a = true → matches r s → matches (Cat (Cls f) r) (String a s).
Proof. intros Hf H. apply (MCat _ _ (String a "") s); [by constructor | done]. Qed.

Lemma matches_star_skip (q r : re) (s : string) :
  matches r s → matches (Cat (Star q) r) s.
Proof. intros H. apply (MCat _ _ "" s); [constructor | done]. Qed.

Lemma matches_star_one (f : ascii → bool) (a : ascii) (r : re) (s : string) :
  f a = true → matches r s → matches (Cat (Star (Cls f)) r) (String a s).
Proof.
  intros Hf H. apply (MCat _ _ (String a "") s); [| done].
  apply (MStarApp _ (String a "") ""); by constructor.
Qed.

Lemma matches_plus_one (f : ascii → bool) (a : ascii) (r : re) (s : string) :
  f a = true → matches r s → matches (Cat (plus (Cls f)) r) (String a s).
Proof.
  intros Hf H. apply (MCat _ _ (String a "") s); [| done].
  apply (MCat _ _ (String a "") ""); by constructor.
Qed.

(** [escapeRegExp] escapes exactly the syntax characters. *)
Lemma escaped_iff_syntax (a : ascii) :
  existsb (Ascii.eqb a)
    ["."%char; "*"%char; "+"%char; "?"%char; "^"%char; "$"%char; "{"%char;
     "}"%char; "("%char; ")"%char; "|"%char; "["%char; "]"%char; "\"%char]
  = isSyntaxChar a.
Proof. by destruct a as [[] [] [] [] [] [] [] []]. Qed.

Lemma syntax_backslash (a : ascii) : isSyntaxChar a = false → Ascii.eqb a "\" = false.
Proof. by destruct a as [[] [] [] [] [] [] [] []]. Qed.

(** The escaped source reads back as the literal source. *)
Lemma parseAtoms_escapeRegExp (s : string) :
  parseAtoms (escapeRegExp s) = Some (lit_ci s).
Proof.
  induction s as [|a s IH]; [done |].
  cbn [escapeRegExp]. rewrite escaped_iff_syntax.
  destruct (isSyntaxChar a) eqn:Ha.
  - cbn [parseAtoms]. rewrite Ascii.eqb_refl, Ha, IH. done.
  - cbn [parseAtoms]. rewrite (syntax_backslash a Ha), Ha, IH. done.
Qed.

End RegexFacts.

(** ** Script injection *)

Lemma scriptTag_shape (src : string) :
  scriptTag src
  = "<script type=" +:+ String dq ("module" +:+ String dq (" src="
      +:+ String dq (src +:+ String dq "></script>"))).
Proof. unfold scriptTag, quoted. simpl. by rewrite append_assoc. Qed.

(** The injected tag is one the presence check recognizes. *)
Lemma scriptTag_matches (src : string) :
  Re.matches (scriptRe (Re.lit_ci src)) (scriptTag src).
Proof.
  rewrite scriptTag_shape. unfold scriptRe.
  apply (matches_lit_then "<script").
  apply matches_plus_one; [done |].
  apply matches_star_skip.
  apply (matches_lit_then "type=").
  apply matches_cls_then; [done |].
  apply (matches_lit_then "module").
  apply matches_cls_then; [done |].
  apply matches_star_one; [done |].
  apply (matches_lit_then "src=").
  apply matches_cls_then; [done |].
  apply (matches_lit_then src).
  apply matches_cls_then; [done |].
  apply matches_star_skip.
  apply matches_cls_then; [done |].
  apply matches_star_skip.
  apply matches_lit_ci.
Qed.

Lemma isScriptAlreadyInjected_around (before after src : string) :
  isScriptAlreadyInjected (before +:+ scriptTag src +:+ after) src = true.
Proof.
  unfold isScriptAlreadyInjected. rewrite parseAtoms_escapeRegExp.
  apply test_complete, scriptTag_matches.
Qed.

(** A replacement text without a dollar sign is inserted as it is. *)
Lemma getSubstitution_plain (matched before after repl : string) :
  noneOf isDollar repl = true → Js.getSubstitution matched before after repl = repl.
Proof.
  induction repl as [|a r IH]; [done |].
  cbn [noneOf Js.getSubstitution]. unfold isDollar at 1.
  destruct (Ascii.eqb a "$"); [done |]. simpl. intros H. by rewrite IH.
Qed.

Lemma replacement_plain (src : string) :
  noneOf isDollar src = true →
  noneOf isDollar (scriptTag src +:+ nl +:+ "  </body>") = true.
Proof.
  intros H. rewrite scriptTag_shape. simpl.
  rewrite !append_assoc. simpl. by rewrite noneOf_append, H.
Qed.

Lemma injectScriptTag_detected (html src : string) :
  noneOf isDollar src = true →
  isScriptAlreadyInjected (injectScriptTag html src) src = true.
Proof.
  intros H. unfold injectScriptTag, Js.replaceFirst_ci.
  destruct (Js.find_ci "</body>" html) as [[[before m] after]|].
  - rewrite getSubstitution_plain by by apply replacement_plain.
    rewrite append_assoc. apply isScriptAlreadyInjected_around.
  - rewrite <- (append_assoc html nl), <- append_assoc, (append_assoc (html +:+ nl)).
    apply isScriptAlreadyInjected_around.
Qed.

(** Where the presence check holds, injection changes nothing. *)
Lemma injectScript_present (html src : string) :
  isScriptAlreadyInjected html src = true → injectScript html src = html.
Proof. intros H. unfold injectScript. by rewrite H. Qed.

(** Injection is idempotent for every script source without a dollar sign. *)
Lemma injectScript_idempotent_without_dollar (html src : string) :
  noneOf isDollar src = true →
  injectScript (injectScript html src) src = injectScript html src.
Proof.
  intros H. unfold injectScript at 2 3.
  destruct (isScriptAlreadyInjected html src) eqn:E.
  - by apply injectScript_present.
  - by apply injectScript_present, injectScriptTag_detected.
Qed.

Lemma injectScript_idempotent_without_dollar_witness :
  injectScript (injectScript templateFallback "/src/pages/admin/main.ts")
    "/src/pages/admin/main.ts"
  = injectScript templateFallback "/src/pages/admin/main.ts".
Proof.
  exact (injectScript_idempotent_without_dollar templateFallback
           "/src/pages/admin/main.ts" eq_refl).
Defined.

(** C2 fails on the code: [String.prototype.replace] expands the
    replacement patterns of the tag it inserts, so for an entry under a
    directory named [$$] the tag written carries a single dollar sign, the
    presence check for the real source does not find it, and a second
    injection adds a second tag. *)
Theorem injectScript_twice_differs_on_replacement_pattern :
  let html := "<body></body>" in
  let src := "/src/pages/$$/main.ts" in
  injectScript html src
  = "<body>" +:+ scriptTag "/src/pages/$/main.ts" +:+ nl +:+ "  </body>"
  ∧ isScriptAlreadyInjected (injectScript html src) src = false
  ∧ injectScript (injectScript html src) src
    = "<body>" +:+ scriptTag "/src/pages/$/main.ts" +:+ nl +:+ "  "
        +:+ scriptTag "/src/pages/$/main.ts" +:+ nl +:+ "  </body>"
  ∧ injectScript (injectScript html src) src ≠ injectScript html src.
Proof. cbv zeta. repeat split; try by vm_compute. Qed.

(** ** Request resolver *)

Lemma splitBy_nonempty (f : ascii → bool) (s : string) : Js.splitBy f s ≠ [].
Proof.
  induction s as [|a s IH]; simpl; [done |].
  destruct (f a); [done |]. by destruct (Js.splitBy f s).
Qed.

Lemma split_nonempty (c : ascii) (s : string) : Js.split c s ≠ [].
Proof. apply splitBy_nonempty. Qed.

Lemma split_head_path (u : string) :
  match Js.split "?" u with p :: _ => p | [] => "" end = pathOf u.
Proof.
  unfold Js.split. induction u as [|a u IH]; simpl; [done |].
  destruct (Ascii.eqb a "?"); [done |].
  destruct (Js.splitBy _ u) as [|h t] eqn:E; [by apply splitBy_nonempty in E |].
  by rewrite <- IH.
Qed.

Lemma pathOf_without_mark (u : string) : noneOf isQuestionMark u = true → pathOf u = u.
Proof.
  induction u as [|a u IH]; simpl; [done |]. unfold isQuestionMark at 1.
  destruct (Ascii.eqb a "?"); [done |]. simpl. intros H. by rewrite IH.
Qed.

Lemma split_second_query (u : string) :
  noneOf isQuestionMark (queryOf u) = true →
  match Js.split "?" u with _ :: q :: _ => q | _ => "" end = queryOf u.
Proof.
  induction u as [|a u IH]; [done |].
  pose proof (split_head_path u) as Hh. revert IH Hh.
  unfold Js.split. simpl.
  destruct (Ascii.eqb a "?") eqn:Ea; intros IH Hh H.
  - destruct (Js.splitBy _ u) as [|h t] eqn:E; [by apply splitBy_nonempty in E |].
    by rewrite Hh, pathOf_without_mark.
  - specialize (IH H).
    destruct (Js.splitBy _ u) as [|h t] eqn:E; [by apply splitBy_nonempty in E |].
    exact IH.
Qed.

(** The page name depends on the path alone: the canonical path without
    its leading separator and its [.html] suffix. *)
Lemma parsePageMeta_name (u : string) :
  pageName (parsePageMeta u)
  = Js.stripSuffix_ci (Js.stripLeadingChar "/" (canonicalPath (pathOf u))) ".html".
Proof.
  unfold parsePageMeta, canonicalPath. rewrite split_head_path. simpl.
  destruct (String.eqb (pathOf u) "/" || String.eqb (pathOf u) ""); [done |].
  by destruct (Js.endsWith_ci (pathOf u) ".html").
Qed.

(** With at most one question mark in the URL the query string is
    reattached unchanged. *)
Lemma parsePageMeta_url_single_mark (u : string) :
  noneOf isQuestionMark (queryOf u) = true →
  url (parsePageMeta u) = canonicalUrl u.
Proof.
  intros H. unfold parsePageMeta, canonicalUrl, canonicalPath.
  rewrite split_head_path, (split_second_query u H). simpl.
  destruct (String.eqb (pathOf u) "/" || String.eqb (pathOf u) ""); [done |].
  by destruct (Js.endsWith_ci (pathOf u) ".html").
Qed.

Lemma parsePageMeta_url_single_mark_witness :
  url (parsePageMeta "/a/b.html?x=1") = canonicalUrl "/a/b.html?x=1".
Proof. exact (parsePageMeta_url_single_mark "/a/b.html?x=1" eq_refl). Defined.

(** The normalizations the source lists. *)
Example parsePageMeta_examples :
  parsePageMeta "/" = mkPageMeta "/index.html" "index"
  ∧ parsePageMeta "" = mkPageMeta "/index.html" "index"
  ∧ parsePageMeta "/foo" = mkPageMeta "/foo.html" "foo"
  ∧ parsePageMeta "/foo/" = mkPageMeta "/foo.html" "foo"
  ∧ parsePageMeta "/foo///" = mkPageMeta "/foo.html" "foo"
  ∧ parsePageMeta "/a/b.html?x=1" = mkPageMeta "/a/b.html?x=1" "a/b".
Proof. repeat split. Qed.

(** C4 fails on the code: [split] cuts the URL at every question mark and
    only the first two pieces are used, so of a query string that holds a
    question mark itself only the part before that mark is reattached. *)
Theorem parsePageMeta_truncates_query_at_second_mark :
  let u := "/docs/page?next=/home?tab=2" in
  queryOf u = "next=/home?tab=2"
  ∧ canonicalUrl u = "/docs/page.html?next=/home?tab=2"
  ∧ parsePageMeta u = mkPageMeta "/docs/page.html?next=/home" "docs/page"
  ∧ url (parsePageMeta u) ≠ canonicalUrl u.
Proof. cbv zeta. repeat split. by vm_compute. Qed.

(** ** Page index *)

Lemma fold_insert_other (after : list Page) (m : Pages) (n : string) :
  Forall (fun q => name q ≠ n) after →
  fold_left (fun m it => <[name it := it]> m) after m !! n = m !! n.
Proof.
  revert m. induction after as [|q after IH]; intros m H; [done |].
  apply Forall_cons in H as [Hq H]. simpl.
  rewrite IH by done. by apply lookup_insert_ne.
Qed.

Lemma fromEntries_last_wins (before after : list Page) (p : Page) :
  Forall (fun q => name q ≠ name p) after →
  fromEntries (before ++ p :: after) !! name p = Some p.
Proof.
  intros H. unfold fromEntries. rewrite fold_left_app. simpl.
  rewrite fold_insert_other by done. apply lookup_insert_eq.
Qed.


(** C9: when several matches of one scan derive the same page name, the
    index holds under that name the page of the one that comes last in scan
    order; the scan returns the index, there is no error result. *)
Theorem resolvePages_last_match_wins (h : Host) (pagesDir : string)
    (entryFiles : list string) (defaultTemplate : string)
    (before after : list Page) (p : Page) :
  resolveItems h pagesDir entryFiles defaultTemplate = before ++ p :: after →
  Forall (fun q => name q ≠ name p) after →
  resolvePages h pagesDir entryFiles defaultTemplate !! name p = Some p.
Proof.
  intros Hitems Hafter. unfold resolvePages. rewrite Hitems.
  by apply fromEntries_last_wins.
Qed.

(** Two entry files in one directory: the index keeps the later one. *)
Lemma resolvePages_last_match_wins_witness :
  resolvePages siteHost "src/pages" ["main.ts"; "main.tsx"] "src/index.html" !! "about"
  = Some (mkPage "about" "/src/pages/about/main.tsx" "/site/src/pages/about/index.html").
Proof.
  exact (resolvePages_last_match_wins siteHost "src/pages" ["main.ts"; "main.tsx"]
           "src/index.html"
           [mkPage "about" "/src/pages/about/main.ts" "/site/src/pages/about/index.html"]
           []
           (mkPage "about" "/src/pages/about/main.tsx" "/site/src/pages/about/index.html")
           eq_refl (List.Forall_nil _)).
Defined.

(** ** Template resolution *)




(** C1 fails on the first revision: its single [if]/[else] takes the
    default template when the colocated file is missing and the sentinel in
    every other case, so a page whose directory holds an [index.html] gets
    the built-in fallback. The later revision gives it the colocated file. *)
Theorem IndexTs_resolvePages_drops_colocated_template :
  existsSync (disk siteHost) "/site/src/pages/about/index.html" = true
  ∧ existsSync (disk siteHost) "src/index.html" = true
  ∧ IndexTs.resolvePages siteHost "src/pages" "main.ts" "src/index.html"
    = Some {[ "about" := mkPage "about" "/src/pages/about/main.ts" "" ]}
  ∧ resolvePages siteHost "src/pages" ["main.ts"] "src/index.html"
    = {[ "about" := mkPage "about" "/src/pages/about/main.ts"
                      "/site/src/pages/about/index.html" ]}.
Proof. repeat split. Qed.

(** ** Production adapter *)

(** [resolveId] claims exactly the identifiers that end in [.html]. *)
Lemma resolveId_claims_html (id : string) :
  (resolveId id = Some id ↔ ∃ stem, id = stem +:+ ".html")
  ∧ (resolveId id = None ↔ ¬ ∃ stem, id = stem +:+ ".html").
Proof.
  unfold resolveId. rewrite <- endsWith_iff.
  by destruct (Js.endsWith id ".html"); split; split.
Qed.

(** A production render is the cached or read template with the script of
    the entry path injected. *)
Lemma loadHtmlContent_prod_value (d : Disk) (page : Page) (base : string)
    (onError : bool) (w : World) :
  loadHtmlContent d page false base onError w
  = (injectScript (readTemplateWithCache d (template page) onError w).1
       (toPosix (entry page)),
     (readTemplateWithCache d (template page) onError w).2).
Proof.
  unfold loadHtmlContent. simpl.
  by destruct (readTemplateWithCache d (template page) onError w).
Qed.


(** C5 fails on the first revision: [id.replace('.html', '')] removes the
    first occurrence of [.html], not the suffix, so the virtual document of
    a page below a directory whose name contains [.html] is looked up under
    a wrong name and declined. The later revision slices the suffix off and
    renders the page. *)
Theorem IndexTs_load_declines_page_below_html_directory :
  let page := mkPage "guide.html/intro" "/src/pages/guide.html/intro/main.ts" "" in
  let pages : Pages := {[ "guide.html/intro" := page ]} in
  let w := mkWorld ∅ ∅ [] in
  input pages = {[ "guide.html/intro" := "guide.html/intro.html" ]}
  ∧ IndexTs.resolveId "guide.html/intro.html" = Some "guide.html/intro.html"
  ∧ Js.replaceFirst ".html" "" "guide.html/intro.html" = "guide/intro.html"
  ∧ IndexTs.load (fun _ => Missing) pages "guide.html/intro.html" w = (None, w)
  ∧ load (fun _ => Missing) pages "guide.html/intro.html" w
    = (Some (injectScript templateFallback "/src/pages/guide.html/intro/main.ts"), w).
Proof. cbv zeta. repeat split. Qed.

(** ** Paths built from the names of a listing *)

Lemma rev_app_acc (a acc : string) : String.rev_app a acc = String.rev a +:+ acc.
Proof.
  revert acc. induction a as [|x a IH]; intros acc; [done |].
  unfold String.rev. simpl. rewrite (IH (String x acc)), (IH (String x "")).
  by rewrite append_assoc.
Qed.

Lemma rev_cons (x : ascii) (a : string) :
  String.rev (String x a) = String.rev a +:+ String x "".
Proof. unfold String.rev at 1. simpl. apply rev_app_acc. Qed.

Lemma rev_append (a b : string) : String.rev (a +:+ b) = String.rev b +:+ String.rev a.
Proof.
  induction a as [|x a IH]; simpl.
  - by rewrite append_nil_r.
  - by rewrite !rev_cons, IH, append_assoc.
Qed.

Lemma length_rev (a : string) : String.length (String.rev a) = String.length a.
Proof.
  induction a as [|x a IH]; [done |].
  rewrite rev_cons, length_append, IH. simpl. lia.
Qed.

Lemma noneOf_rev (f : ascii → bool) (a : string) : noneOf f (String.rev a) = noneOf f a.
Proof.
  induction a as [|x a IH]; [done |].
  rewrite rev_cons, noneOf_append, IH. simpl. rewrite andb_true_r. apply andb_comm.
Qed.

Lemma rev_nonempty (a : string) : a ≠ "" → ∃ c r, String.rev a = String c r.
Proof.
  intros H. destruct (String.rev a) as [|c r] eqn:E; [| eauto].
  apply (f_equal String.length) in E. rewrite length_rev in E.
  destruct a; [done | discriminate].
Qed.

Lemma splitBy_clean (f : ascii → bool) (n rest : string) :
  noneOf f n = true →
  Js.splitBy f (n +:+ rest)
  = match Js.splitBy f rest with h :: t => (n +:+ h) :: t | [] => [n] end.
Proof.
  induction n as [|a n IH]; simpl.
  - intros _. destruct (Js.splitBy f rest) eqn:E; [by apply splitBy_nonempty in E | done].
  - destruct (f a); [done |]. simpl. intros H. rewrite (IH H).
    by destruct (Js.splitBy f rest).
Qed.

Lemma splitBy_concat (f : ascii → bool) (c : ascii) (segs : list string) :
  f c = true → segs ≠ [] → Forall (fun n => noneOf f n = true) segs →
  Js.splitBy f (String.concat (String c "") segs) = segs.
Proof.
  intros Hc. induction segs as [|n segs IH]; [done |]. intros _ H.
  apply Forall_cons in H as [Hn H]. destruct segs as [|n' segs].
  - simpl. rewrite <- (append_nil_r n) at 1. rewrite splitBy_clean by done.
    simpl. by rewrite append_nil_r.
  - change (String.concat (String c "") (n :: n' :: segs))
      with (n +:+ String c (String.concat (String c "") (n' :: segs))).
    rewrite splitBy_clean by done. cbn [Js.splitBy]. rewrite Hc.
    rewrite IH by done. by rewrite append_nil_r.
Qed.

Lemma concat_snoc (sep : string) (segs : list string) (n : string) :
  segs ≠ [] → String.concat sep (segs ++ [n]) = String.concat sep segs +:+ sep +:+ n.
Proof.
  induction segs as [|m segs IH]; [done |]. intros _.
  destruct segs as [|m' segs]; [done |].
  change (String.concat sep ((m :: m' :: segs) ++ [n]))
    with (m +:+ sep +:+ String.concat sep ((m' :: segs) ++ [n])).
  rewrite IH by done.
  change (String.concat sep (m :: m' :: segs))
    with (m +:+ sep +:+ String.concat sep (m' :: segs)).
  by rewrite !append_assoc.
Qed.

Section ListingPaths.

Variable pf : NodePath.Platform.

Lemma sep_is_separator : NodePath.isPathSeparator pf (NodePath.sep pf) = true.
Proof. by destruct pf. Qed.

Lemma slash_is_separator : NodePath.isPathSeparator pf "/" = true.
Proof. by destruct pf. Qed.

Lemma wfName_spec (n : string) :
  wfName pf n = true →
  n ≠ "" ∧ n ≠ "." ∧ n ≠ ".." ∧ noneOf (NodePath.isPathSeparator pf) n = true.
Proof.
  unfold wfName. rewrite !andb_true_iff, !negb_true_iff.
  intros [[[H1 H2] H3] H4]. apply truthy_true in H1.
  apply String.eqb_neq in H2, H3. done.
Qed.

Lemma wfName_first (n : string) :
  wfName pf n = true →
  ∃ a n', n = String a n' ∧ NodePath.isPathSeparator pf a = false.
Proof.
  intros H. apply wfName_spec in H as (H1 & _ & _ & H4).
  destruct n as [|a n']; [done |]. exists a, n'. split; [done |].
  simpl in H4. apply andb_true_iff in H4 as [H4 _]. by apply negb_true_iff in H4.
Qed.

Lemma normalizeStep_clean (allow : bool) (kept : list string) (n : string) :
  wfName pf n = true → NodePath.normalizeStep allow kept n = n :: kept.
Proof.
  intros H. apply wfName_spec in H as (H1 & H2 & H3 & _).
  unfold NodePath.normalizeStep.
  apply String.eqb_neq in H1, H2, H3. by rewrite H1, H2, H3.
Qed.

Lemma fold_normalizeStep_clean (allow : bool) (segs kept : list string) :
  Forall (fun n => wfName pf n = true) segs →
  fold_left (NodePath.normalizeStep allow) segs kept = rev segs ++ kept.
Proof.
  revert kept. induction segs as [|n segs IH]; intros kept H; [done |].
  apply Forall_cons in H as [Hn H]. simpl.
  rewrite normalizeStep_clean, IH by done. by rewrite <- app_assoc.
Qed.

Lemma wf_noneOf (segs : list string) :
  Forall (fun n => wfName pf n = true) segs →
  Forall (fun n => noneOf (NodePath.isPathSeparator pf) n = true) segs.
Proof.
  intros H. eapply List.Forall_impl; [| exact H].
  intros n Hn. by apply wfName_spec in Hn as (_ & _ & _ & Hn).
Qed.

Lemma normalizeString_clean (allow : bool) (segs : list string) :
  segs ≠ [] → Forall (fun n => wfName pf n = true) segs →
  NodePath.normalizeString pf allow (relDirOf pf segs) = relDirOf pf segs.
Proof.
  intros Hne H. unfold NodePath.normalizeString, NodePath.segments, relDirOf, Js.join.
  rewrite (splitBy_concat _ _ segs sep_is_separator Hne (wf_noneOf segs H)).
  rewrite fold_normalizeStep_clean by done.
  by rewrite app_nil_r, rev_involutive.
Qed.

Lemma relDirOf_first (segs : list string) :
  segs ≠ [] → Forall (fun n => wfName pf n = true) segs →
  ∃ a r, relDirOf pf segs = String a r ∧ NodePath.isPathSeparator pf a = false.
Proof.
  intros Hne H. destruct segs as [|n segs]; [done |].
  apply Forall_cons in H as [Hn _]. apply wfName_first in Hn as (a & n' & -> & Ha).
  unfold relDirOf, Js.join. destruct segs; simpl; eauto.
Qed.

Lemma relDirOf_last (segs : list string) :
  segs ≠ [] → Forall (fun n => wfName pf n = true) segs →
  ∃ p n, relDirOf pf segs = p +:+ n ∧ wfName pf n = true.
Proof.
  intros Hne H. induction segs as [|m segs IH]; [done |].
  apply Forall_cons in H as [Hm H]. destruct segs as [|m' segs].
  - exists "", m. done.
  - destruct IH as (p & n & Hp & Hn); [done | done |].
    exists (m +:+ String (NodePath.sep pf) "" +:+ p), n. split; [| done].
    unfold relDirOf, Js.join in *.
    change (String.concat (String (NodePath.sep pf) "") (m :: m' :: segs))
      with (m +:+ String (NodePath.sep pf) ""
              +:+ String.concat (String (NodePath.sep pf) "") (m' :: segs)).
    by rewrite Hp, !append_assoc.
Qed.

Lemma lastIsSeparator_clean (segs : list string) :
  segs ≠ [] → Forall (fun n => wfName pf n = true) segs →
  NodePath.lastIsSeparator pf (relDirOf pf segs) = false.
Proof.
  intros Hne H. destruct (relDirOf_last segs Hne H) as (p & n & -> & Hn).
  apply wfName_spec in Hn as (Hn1 & _ & _ & Hn4).
  unfold NodePath.lastIsSeparator. rewrite rev_append.
  destruct (rev_nonempty n Hn1) as (c & r & Hr). rewrite Hr. simpl.
  rewrite <- noneOf_rev, Hr in Hn4. simpl in Hn4.
  apply andb_true_iff in Hn4 as [Hc _]. by apply negb_true_iff in Hc.
Qed.

Lemma normalize_clean (segs : list string) :
  segs ≠ [] → Forall (fun n => wfName pf n = true) segs →
  NodePath.normalize pf (relDirOf pf segs) = relDirOf pf segs.
Proof.
  intros Hne H. unfold NodePath.normalize.
  rewrite lastIsSeparator_clean by done.
  destruct (relDirOf_first segs Hne H) as (a & r & Hr & Ha).
  rewrite normalizeString_clean by done.
  rewrite Hr. simpl. by rewrite Ha.
Qed.

(** Joining the path of a directory with a name read from it appends the
    name after a separator. *)
Lemma join_clean (dirs : list string) (n : string) :
  Forall (fun n => wfName pf n = true) dirs → wfName pf n = true →
  NodePath.join pf [relDirOf pf dirs; n] = relDirOf pf (dirs ++ [n]).
Proof.
  intros Hd Hn. unfold NodePath.join.
  assert (List.filter Js.truthy [n] = [n]) as Hfn.
  { destruct (wfName_first n Hn) as (a & n' & -> & _). done. }
  destruct dirs as [|d dirs].
  - change (List.filter Js.truthy [relDirOf pf []; n])
      with (List.filter Js.truthy [n]).
    rewrite Hfn. apply (normalize_clean [n]); [done | by constructor].
  - destruct (relDirOf_first (d :: dirs)) as (a & r & Hr & _); [done | done |].
    assert (List.filter Js.truthy [relDirOf pf (d :: dirs); n]
            = [relDirOf pf (d :: dirs); n]) as ->.
    { rewrite Hr. change (List.filter Js.truthy [String a r; n])
        with (String a r :: List.filter Js.truthy [n]). by rewrite Hfn. }
    replace (Js.join (String (NodePath.sep pf) "") [relDirOf pf (d :: dirs); n])
      with (relDirOf pf ((d :: dirs) ++ [n])).
    + apply normalize_clean; [done |].
      apply Forall_app. split; [done | by constructor].
    + unfold relDirOf, Js.join. by rewrite concat_snoc.
Qed.

End ListingPaths.

(** ** Page names *)

Lemma dropWhile_none (f : ascii → bool) (s : string) :
  noneOf f s = true → NodePath.dropWhile f s = s.
Proof.
  destruct s as [|a s]; [done |]. simpl.
  destruct (f a); [done | done].
Qed.

Lemma dropWhile_not_none (f : ascii → bool) (s t : string) :
  noneOf f s = true →
  NodePath.dropWhile (fun a => negb (f a)) (s +:+ t)
  = NodePath.dropWhile (fun a => negb (f a)) t.
Proof.
  induction s as [|a s IH]; [done |]. simpl.
  destruct (f a); [done |]. simpl. apply IH.
Qed.

Lemma dropWhile_head (f : ascii → bool) (c : ascii) (r : string) :
  f c = false → NodePath.dropWhile f (String c r) = String c r.
Proof. intros H. simpl. by rewrite H. Qed.

Lemma dirname_posix_single (f : string) :
  f ≠ "" → noneOf isSlash f = true → NodePath.dirname NodePath.Posix f = ".".
Proof.
  intros Hne Hf. destruct f as [|a0 f']; [done |].
  simpl in Hf. apply andb_true_iff in Hf as [Ha Hf']. apply negb_true_iff in Ha.
  unfold NodePath.dirname. fold isSlash. rewrite Ha.
  change (Js.drop 1 (String a0 f')) with f'.
  rewrite (dropWhile_none isSlash) by by rewrite noneOf_rev.
  rewrite <- (append_nil_r (String.rev f')).
  rewrite (dropWhile_not_none isSlash) by by rewrite noneOf_rev.
  done.
Qed.

Lemma dirname_posix_nested (a0 : ascii) (D' f : string) :
  isSlash a0 = false → f ≠ "" → noneOf isSlash f = true →
  NodePath.dirname NodePath.Posix (String a0 D' +:+ "/" +:+ f) = String a0 D'.
Proof.
  intros Ha Hne Hf.
  change (String a0 D' +:+ "/" +:+ f) with (String a0 (D' +:+ String "/" f)).
  unfold NodePath.dirname. fold isSlash. rewrite Ha.
  change (Js.drop 1 (String a0 (D' +:+ String "/" f))) with (D' +:+ String "/" f).
  rewrite rev_append, rev_cons, append_assoc.
  change (String "/" "" +:+ String.rev D') with (String "/" (String.rev D')).
  destruct (rev_nonempty f Hne) as (c & r & Hr).
  assert (noneOf isSlash (String.rev f) = true) as Hrf by by rewrite noneOf_rev.
  assert (isSlash c = false) as Hc.
  { rewrite Hr in Hrf. simpl in Hrf. apply andb_true_iff in Hrf as [Hc _].
    by apply negb_true_iff in Hc. }
  rewrite Hr at 1.
  change (String c r +:+ String "/" (String.rev D'))
    with (String c (r +:+ String "/" (String.rev D'))).
  rewrite (dropWhile_head isSlash) by done.
  change (String c (r +:+ String "/" (String.rev D')))
    with (String c r +:+ String "/" (String.rev D')).
  rewrite <- Hr.
  rewrite (dropWhile_not_none isSlash) by done.
  change (NodePath.dropWhile (fun a => negb (isSlash a)) (String "/" (String.rev D')))
    with (String "/" (String.rev D')).
  cbv iota. simpl andb. cbv iota.
  change (String a0 (D' +:+ String "/" f)) with (String a0 D' +:+ String "/" f).
  match goal with
  | |- Js.take ?n _ = _ => replace n with (String.length (String a0 D'))
  end.
  2:{ repeat (rewrite ?length_append, ?length_rev; simpl String.length). lia. }
  apply take_append.
Qed.

Lemma noneOf_mono (f g : ascii → bool) (s : string) :
  (∀ a, g a = true → f a = true) → noneOf f s = true → noneOf g s = true.
Proof.
  intros Hfg. induction s as [|a s IH]; [done |]. simpl.
  rewrite !andb_true_iff, !negb_true_iff. intros [Ha Hs]. split; [| auto].
  destruct (g a) eqn:E; [| done]. apply Hfg in E. congruence.
Qed.

Lemma visit_unfold (pf : NodePath.Platform) (targets : list string) (relDir : string)
    (ent : Dirent) :
  visit pf targets relDir ent
  = if shouldSkip ent then []
    else
      match ent with
      | Dir _ (Some entries) =>
          flat_map (visit pf targets (NodePath.join pf [relDir; direntName ent])) entries
      | File n =>
          if has targets n
          then [Js.join "/" (Js.split (NodePath.sep pf)
                               (NodePath.join pf [relDir; direntName ent]))]
          else []
      | _ => []
      end.
Proof. destruct ent as [n|n [entries|]|n t|n]; simpl; by destruct (shouldSkip _). Qed.

Lemma locate_unfold (targets dirs : list string) (ent : Dirent) :
  locate targets dirs ent
  = if shouldSkip ent then []
    else
      match ent with
      | Dir n (Some entries) => flat_map (locate targets (dirs ++ [n])) entries
      | File n => if has targets n then [(dirs, n)] else []
      | _ => []
      end.
Proof. by destruct ent as [n|n [entries|]|n t|n]. Qed.

Section Discovery.

Variable pf : NodePath.Platform.

Abbreviation wfNames := (Forall (fun n => wfName pf n = true)).

Lemma wfName_posix (n : string) : wfName pf n = true → wfName NodePath.Posix n = true.
Proof.
  unfold wfName. rewrite !andb_true_iff. intros [H1 H2]. split; [done |].
  revert H2. apply noneOf_mono. intros a Ha. destruct pf; [done |].
  simpl in *. by rewrite Ha.
Qed.

Lemma wfNames_posix (dirs : list string) :
  wfNames dirs → Forall (fun n => wfName NodePath.Posix n = true) dirs.
Proof. intros H. eapply List.Forall_impl; [| exact H]. apply wfName_posix. Qed.

Lemma posix_path_not_dot (dirs : list string) :
  dirs ≠ [] → Forall (fun n => wfName NodePath.Posix n = true) dirs →
  relDirOf NodePath.Posix dirs ≠ ".".
Proof.
  intros Hne H. destruct dirs as [|d ds]; [done |].
  apply Forall_cons in H as [Hd _].
  pose proof (wfName_spec _ d Hd) as (_ & Hdot & _).
  destruct ds as [|d' ds]; [done |].
  destruct (wfName_first _ d Hd) as (a & r & -> & _).
  unfold relDirOf, Js.join.
  change (String.concat "/" (String a r :: d' :: ds))
    with (String a (r +:+ String "/" (String.concat "/" (d' :: ds)))).
  intros E. injection E as _ E. by destruct r.
Qed.

(** The name derived from the POSIX-relative path of a match lying in
    [dirs]. *)
Lemma derivedName_located (dirs : list string) (f : string) :
  wfNames dirs → wfName pf f = true →
  derivedName (Js.join "/" (dirs ++ [f])) = pageNameOf dirs.
Proof.
  intros Hd Hf. apply wfNames_posix in Hd. apply wfName_posix in Hf.
  pose proof (wfName_spec _ f Hf) as (Hf1 & _ & _ & Hf4).
  unfold derivedName. destruct dirs as [|d ds].
  - change (Js.join "/" ([] ++ [f])) with f.
    by rewrite dirname_posix_single.
  - unfold Js.join. rewrite concat_snoc by done.
    destruct (relDirOf_first NodePath.Posix (d :: ds)) as (a & r & Hr & Ha); [done.. |].
    pose proof (posix_path_not_dot (d :: ds)) as Hdot.
    unfold relDirOf, Js.join in Hr, Hdot. cbn [NodePath.sep] in Hr, Hdot.
    rewrite Hr in *.
    rewrite dirname_posix_nested by done.
    apply String.eqb_neq in Hdot; [| done | done]. rewrite Hdot.
    unfold pageNameOf, Js.join. by rewrite Hr.
Qed.

Lemma split_relDirOf (segs : list string) :
  segs ≠ [] → wfNames segs →
  Js.split (NodePath.sep pf) (relDirOf pf segs) = segs.
Proof.
  intros Hne H. unfold Js.split, relDirOf, Js.join.
  apply splitBy_concat; [apply Ascii.eqb_refl | done |].
  eapply List.Forall_impl; [| exact H]. intros n Hn.
  apply wfName_spec in Hn as (_ & _ & _ & Hn). revert Hn.
  apply noneOf_mono. intros a Ha. apply Ascii.eqb_eq in Ha as ->.
  apply sep_is_separator.
Qed.

(** The names derived from the matches under one entry are the names of
    the places where the matches lie. *)
Lemma visit_names (targets : list string) (ent : Dirent) :
  ∀ dirs, wfNames dirs → wfDirent pf ent = true →
    map derivedName (visit pf targets (relDirOf pf dirs) ent)
    = map (fun l => pageNameOf l.1) (locate targets dirs ent).
Proof.
  induction ent as [n|n|n entries IH|n|n target _|n] using Dirent_tree_ind;
    intros dirs Hd Hw; rewrite visit_unfold, locate_unfold;
    destruct (shouldSkip _); try done.
  - simpl in Hw. rewrite andb_true_r in Hw.
    destruct (has targets n); [| done]. cbn [direntName map].
    rewrite (join_clean pf dirs n Hd Hw).
    rewrite split_relDirOf; [| by destruct dirs | by apply Forall_app; split; [| constructor]].
    by rewrite derivedName_located.
  - simpl in Hw. apply andb_true_iff in Hw as [Hn Hents]. cbn [direntName].
    rewrite (join_clean pf dirs n Hd Hn).
    assert (wfNames (dirs ++ [n])) as Hd'
      by (apply Forall_app; split; [done | by constructor]).
    clear Hd Hn. induction entries as [|e entries IHe]; [done |].
    apply Forall_cons in IH as [IHhd IHtl].
    simpl in Hents. apply andb_true_iff in Hents as [He Hents].
    simpl. rewrite !map_app, IHhd by done. f_equal. by apply IHe.
Qed.

End Discovery.

Lemma resolveItems_derived_names (h : Host) (pagesDir : string) (entryFiles : list string)
    (defaultTemplate : string) :
  wfListing (platform h) (pagesRoot h) = true →
  map name (resolveItems h pagesDir entryFiles defaultTemplate)
  = map (fun l => pageNameOf l.1) (located entryFiles (pagesRoot h)).
Proof.
  intros Hw. unfold resolveItems. rewrite map_map.
  change (fun x => name (resolveItem h pagesDir defaultTemplate x)) with derivedName.
  unfold findEntryFiles, walk, located.
  destruct (pagesRoot h) as [entries|]; [| done]. simpl in Hw.
  induction entries as [|e entries IH]; [done |].
  simpl in Hw. apply andb_true_iff in Hw as [He Hw].
  simpl. rewrite !map_app. f_equal; [| by apply IH].
  by apply (visit_names (platform h) entryFiles e []).
Qed.

(** For every scan of well-formed names on either platform, the page names
    are [index] for the matches in the pages root and the directory names
    joined by slashes for the others, in scan order. *)
Theorem resolveItems_names (h : Host) (pagesDir : string) (entryFiles : list string)
    (defaultTemplate : string) :
  wfListing (platform h) (pagesRoot h) = true →
  map name (resolveItems h pagesDir entryFiles defaultTemplate)
  = map (fun l => pageNameOf l.1) (located entryFiles (pagesRoot h)).
Proof. apply resolveItems_derived_names. Qed.

Lemma resolveItems_names_witness :
  map name (resolveItems (nestedHost NodePath.Win32) "src\pages" ["main.ts"] "")
  = map (fun l => pageNameOf l.1) (located ["main.ts"] nestedListing).
Proof.
  exact (resolveItems_names (nestedHost NodePath.Win32) "src\pages" ["main.ts"] "" eq_refl).
Defined.

(** The page names of a listing do not depend on the platform. *)
Lemma resolveItems_names_platform_independent (h1 h2 : Host) (pagesDir1 pagesDir2 : string)
    (entryFiles : list string) (defaultTemplate1 defaultTemplate2 : string) :
  pagesRoot h1 = pagesRoot h2 →
  wfListing (platform h1) (pagesRoot h1) = true →
  wfListing (platform h2) (pagesRoot h2) = true →
  map name (resolveItems h1 pagesDir1 entryFiles defaultTemplate1)
  = map name (resolveItems h2 pagesDir2 entryFiles defaultTemplate2).
Proof.
  intros Hroot H1 H2. rewrite !resolveItems_derived_names by done. by rewrite Hroot.
Qed.

(** C3 fails on the first revision: it takes the name from the host's
    [path.dirname] of the host-relative path, so on Windows the entry in
    [a\b] is named with a backslash. The later revision converts the
    match to a POSIX path first and names it [a/b] on both platforms. *)
Theorem IndexTs_page_name_keeps_backslash_on_windows :
  IndexTs.resolvePages (nestedHost NodePath.Win32) "src/pages" "main.ts" ""
  = Some {[ "index" := mkPage "index" "/src\pages\main.ts" "";
            "a\b" := mkPage "a\b" "/src\pages\a\b\main.ts" "" ]}
  ∧ IndexTs.resolvePages (nestedHost NodePath.Posix) "src/pages" "main.ts" ""
    = Some {[ "index" := mkPage "index" "/src/pages/main.ts" "";
              "a/b" := mkPage "a/b" "/src/pages/a/b/main.ts" "" ]}
  ∧ resolvePages (nestedHost NodePath.Win32) "src/pages" ["main.ts"] ""
    = {[ "index" := mkPage "index" "/src/pages/main.ts" "";
         "a/b" := mkPage "a/b" "/src/pages/a/b/main.ts" "" ]}
  ∧ resolvePages (nestedHost NodePath.Posix) "src/pages" ["main.ts"] ""
    = {[ "index" := mkPage "index" "/src/pages/main.ts" "";
         "a/b" := mkPage "a/b" "/src/pages/a/b/main.ts" "" ]}.
Proof. repeat split; by vm_compute. Qed.

(** The presence check wants [type] before [src]: a module script written
    with the two attributes the other way round is not recognized, and the
    tag is injected next to it. *)
Example isScriptAlreadyInjected_needs_type_first :
  isScriptAlreadyInjected "<script type='module' defer src='/src/pages/main.ts'></script>"
    "/src/pages/main.ts" = true
  ∧ isScriptAlreadyInjected "<SCRIPT TYPE='module' SRC='/SRC/pages/MAIN.ts'></SCRIPT>"
      "/src/pages/main.ts" = true
  ∧ isScriptAlreadyInjected "<script src='/src/pages/main.ts' type='module'></script>"
      "/src/pages/main.ts" = false.
Proof. repeat split; by vm_compute. Qed.

(** ** The scenario of the specification

    A pages root with [main.ts] at its top and in [admin/dashboard]: the
    page names, the entry-point map of the production build, and the
    virtual document of the nested page. *)
Example production_scenario :
  let listing :=
    Some [File "main.ts";
          Dir "admin" (Some [Dir "dashboard" (Some [File "main.ts"])])] in
  let h := mkHost NodePath.Posix "/site/src/pages" listing (fun _ => Missing) in
  let pages := resolvePages h "src/pages" ["main.ts"] "src/index.html" in
  map name (resolveItems h "src/pages" ["main.ts"] "src/index.html")
  = ["index"; "admin/dashboard"]
  ∧ input pages
    = {[ "index" := "index.html"; "admin/dashboard" := "admin/dashboard.html" ]}
  ∧ (load (disk h) pages "admin/dashboard.html" (mkWorld ∅ ∅ [])).1
    = Some (injectScript templateFallback "/src/pages/admin/dashboard/main.ts")
  ∧ isScriptAlreadyInjected
      (injectScript templateFallback "/src/pages/admin/dashboard/main.ts")
      "/src/pages/admin/dashboard/main.ts" = true.
Proof. repeat split; by vm_compute. Qed.

(** * Further properties of the code *)

(** ** Caches: what is stored is what is served *)

Lemma or_else_truthy (a b : string) : Js.truthy b = true → Js.truthy (Js.or_else a b) = true.
Proof. intros H. unfold Js.or_else. by destruct (Js.truthy a) eqn:E. Qed.

Lemma getTruthy_truthy (m : gmap string string) (k c : string) :
  getTruthy m k = Some c → Js.truthy c = true.
Proof.
  unfold getTruthy. destruct (m !! k) as [v|]; [| done].
  destruct (Js.truthy v) eqn:E; [| done]. by intros [= <-].
Qed.

Lemma getTruthy_insert (m : gmap string string) (k v : string) :
  Js.truthy v = true → getTruthy (<[k := v]> m) k = Some v.
Proof. intros H. unfold getTruthy. by rewrite lookup_insert_eq, H. Qed.

Lemma templateOnDisk_truthy (d : Disk) (p : string) : Js.truthy (templateOnDisk d p) = true.
Proof.
  unfold templateOnDisk. destruct (Js.truthy p); [| done].
  destruct (d p); try done. by apply or_else_truthy.
Qed.

Lemma readTemplateWithCache_again (d d' : Disk) (p : string) (onError onError' : bool)
    (w : World) :
  readTemplateWithCache d' p onError' (readTemplateWithCache d p onError w).2
  = readTemplateWithCache d p onError w.
Proof.
  destruct (decide (p = "")) as [->|Hp]; [done |].
  destruct (getTruthy (templateContentCache w) p) as [c|] eqn:Hc.
  - rewrite (readTemplateWithCache_hit d p c onError w Hp Hc). simpl.
    by apply readTemplateWithCache_hit.
  - rewrite (readTemplateWithCache_miss d p onError w Hp Hc). simpl.
    apply readTemplateWithCache_hit; [done |]. simpl.
    apply getTruthy_insert, templateOnDisk_truthy.
Qed.

(** A template that was read once is served from the cache from then on:
    a second read, of whatever is on disk by then, returns the same text
    and does nothing to the caches or the trace. *)
Theorem readTemplateWithCache_round_trip (d d' : Disk) (p : string)
    (onError onError' : bool) (w : World) :
  let first := readTemplateWithCache d p onError w in
  readTemplateWithCache d' p onError' first.2 = (first.1, first.2).
Proof.
  cbv zeta. rewrite readTemplateWithCache_again.
  by destruct (readTemplateWithCache d p onError w).
Qed.

Lemma truthy_append_cons (a b : string) (c : ascii) : Js.truthy (a +:+ String c b) = true.
Proof. by destruct a. Qed.

Lemma getSubstitution_scriptTag_truthy (m b a src rest : string) :
  Js.truthy (Js.getSubstitution m b a (scriptTag src +:+ rest)) = true.
Proof. rewrite scriptTag_shape. done. Qed.

Lemma injectScriptTag_truthy (html src : string) : Js.truthy (injectScriptTag html src) = true.
Proof.
  unfold injectScriptTag, Js.replaceFirst_ci.
  destruct (Js.find_ci "</body>" html) as [[[b m] a]|].
  - pose proof (getSubstitution_scriptTag_truthy m b a src (nl +:+ "  </body>")) as H.
    destruct (Js.getSubstitution m b a _) as [|c r]; [done |].
    apply truthy_append_cons.
  - unfold nl at 1. apply truthy_append_cons.
Qed.

Lemma injectScript_truthy (html src : string) :
  Js.truthy html = true → Js.truthy (injectScript html src) = true.
Proof.
  intros H. unfold injectScript. destruct (isScriptAlreadyInjected html src); [done |].
  apply injectScriptTag_truthy.
Qed.

Lemma readTemplateWithCache_truthy (d : Disk) (p : string) (onError : bool) (w : World) :
  Js.truthy (readTemplateWithCache d p onError w).1 = true.
Proof.
  destruct (decide (p = "")) as [->|Hp]; [done |].
  destruct (getTruthy (templateContentCache w) p) as [c|] eqn:Hc.
  - rewrite (readTemplateWithCache_hit d p c onError w Hp Hc). simpl.
    by apply getTruthy_truthy in Hc.
  - rewrite (readTemplateWithCache_miss d p onError w Hp Hc). simpl.
    apply templateOnDisk_truthy.
Qed.

Lemma loadHtmlContent_dev_unfold (d : Disk) (page : Page) (base : string)
    (onError : bool) (w : World) (key : string) :
  key = withTrailingSlash (Js.or_else base "/") +:+ "|" +:+ toPosix (entry page) →
  loadHtmlContent d page true base onError w
  = match getTruthy (entryContentCache w) key with
    | Some cached => (cached, w)
    | None =>
        let r := readTemplateWithCache d (template page) onError w in
        let html := injectScript r.1 (buildScriptSrc (toPosix (entry page)) true base) in
        (html, setEntry key html r.2)
    end.
Proof.
  intros ->. unfold loadHtmlContent. cbv zeta.
  destruct (getTruthy _ _); [done |].
  by destruct (readTemplateWithCache d (template page) onError w).
Qed.

(** A page rendered once in development is served from the assembled-HTML
    cache from then on: rendering it again under the same base, whatever
    is on disk by then, returns the same HTML and does nothing to the
    caches or the trace. *)
Theorem loadHtmlContent_dev_round_trip (d d' : Disk) (page : Page) (base : string)
    (onError onError' : bool) (w : World) :
  let first := loadHtmlContent d page true base onError w in
  loadHtmlContent d' page true base onError' first.2 = (first.1, first.2).
Proof.
  cbv zeta.
  rewrite (loadHtmlContent_dev_unfold d page base onError w _ eq_refl).
  set (key := withTrailingSlash (Js.or_else base "/") +:+ "|" +:+ toPosix (entry page)).
  destruct (getTruthy (entryContentCache w) key) as [c|] eqn:Hc.
  - cbn [fst snd].
    rewrite (loadHtmlContent_dev_unfold d' page base onError' w key eq_refl).
    by rewrite Hc.
  - cbv zeta. cbn [fst snd].
    rewrite (loadHtmlContent_dev_unfold d' page base onError' _ key eq_refl).
    cbn [setEntry entryContentCache]. rewrite getTruthy_insert; [done |].
    apply injectScript_truthy, readTemplateWithCache_truthy.
Qed.

(** A production render is repeatable: rendering the page again, whatever
    is on disk by then, returns the same HTML and does nothing to the
    caches or the trace. *)
Theorem loadHtmlContent_prod_repeatable (d d' : Disk) (page : Page) (base base' : string)
    (onError onError' : bool) (w : World) :
  let first := loadHtmlContent d page false base onError w in
  loadHtmlContent d' page false base' onError' first.2 = (first.1, first.2).
Proof.
  cbv zeta. rewrite !loadHtmlContent_prod_value. simpl.
  by rewrite readTemplateWithCache_again.
Qed.

(** ** Injection: where the tag goes *)

(** After an injection the presence check holds, for every script source
    without a dollar sign. *)
Theorem injectScript_establishes_presence (html src : string) :
  noneOf isDollar src = true →
  isScriptAlreadyInjected (injectScript html src) src = true.
Proof.
  intros H. unfold injectScript.
  destruct (isScriptAlreadyInjected html src) eqn:E; [done |].
  by apply injectScriptTag_detected.
Qed.

Lemma injectScript_establishes_presence_witness :
  isScriptAlreadyInjected
    (injectScript "<html><BODY><p>hi</p></BODY></html>" "/src/pages/about/main.ts")
    "/src/pages/about/main.ts" = true.
Proof.
  exact (injectScript_establishes_presence "<html><BODY><p>hi</p></BODY></html>"
           "/src/pages/about/main.ts" eq_refl).
Defined.

Lemma startsWith_ci_split (s p : string) :
  Js.startsWith_ci s p = true →
  s = Js.take (String.length p) s +:+ Js.drop (String.length p) s
  ∧ eq_ci (Js.take (String.length p) s) p = true.
Proof.
  revert s. induction p as [|b p IH]; intros s H.
  - by destruct s.
  - destruct s as [|a s]; [done |]. simpl in H.
    destruct (Js.eqb_ci a b) eqn:E; [| done].
    destruct (IH s H) as [Hs He]. split.
    + simpl. by rewrite <- Hs.
    + unfold eq_ci in *. simpl. rewrite E.
      apply andb_true_iff in He as [Hl Hp]. apply Nat.eqb_eq in Hl.
      rewrite Hp, andb_true_r. apply Nat.eqb_eq. simpl in *. by rewrite Hl.
Qed.

Lemma find_ci_unfold (p s : string) :
  Js.find_ci p s
  = if Js.startsWith_ci s p
    then Some ("", Js.take (String.length p) s, Js.drop (String.length p) s)
    else match s with
         | "" => None
         | String a s' =>
             match Js.find_ci p s' with
             | Some (before, m, after) => Some (String a before, m, after)
             | None => None
             end
         end.
Proof. by destruct s. Qed.

Lemma startsWith_ci_append (s x p : string) :
  Js.startsWith_ci s p = true → Js.startsWith_ci (s +:+ x) p = true.
Proof.
  revert s. induction p as [|b p IH]; intros s H; [by destruct (s +:+ x) |].
  destruct s as [|a s]; [done |]. simpl in *.
  destruct (Js.eqb_ci a b); [by apply IH | done].
Qed.

(** What [find_ci] returns: a split of the string at an occurrence, with
    no occurrence starting earlier. *)
Lemma find_ci_Some (p s b m a : string) :
  p ≠ "" → Js.find_ci p s = Some (b, m, a) →
  s = b +:+ m +:+ a ∧ eq_ci m p = true ∧ Js.find_ci p b = None.
Proof.
  intros Hp. revert b. induction s as [|x s IH]; intros b; rewrite find_ci_unfold.
  - destruct (Js.startsWith_ci "" p) eqn:E; [| done].
    by destruct p.
  - destruct (Js.startsWith_ci (String x s) p) eqn:E.
    + intros [= <- <- <-]. destruct (startsWith_ci_split _ _ E) as [Hs He].
      split; [done |]. split; [done |]. by destruct p.
    + destruct (Js.find_ci p s) as [[[b' m'] a']|] eqn:Hf; [| done].
      intros [= <- <- <-]. destruct (IH b' eq_refl) as (Hs & He & Hb).
      split; [simpl; by rewrite <- Hs |]. split; [done |].
      rewrite find_ci_unfold, Hb.
      destruct (Js.startsWith_ci (String x b') p) eqn:E'; [| done].
      apply (startsWith_ci_append _ (m' +:+ a')) in E'.
      simpl in E'. rewrite <- Hs in E'. simpl in E. congruence.
Qed.

(** For a script source without a dollar sign the tag is written
    immediately before the first closing body tag, in whatever case that
    is written, which is replaced by [</body>] on a line of its own; the
    text before and after it is kept. Without a closing body tag the tag
    is appended on a line of its own. *)
Theorem injectScriptTag_placement (html src : string) :
  noneOf isDollar src = true →
  match Js.find_ci "</body>" html with
  | Some (before, closing, after) =>
      html = before +:+ closing +:+ after
      ∧ eq_ci closing "</body>" = true
      ∧ Js.find_ci "</body>" before = None
      ∧ injectScriptTag html src
        = before +:+ scriptTag src +:+ nl +:+ "  </body>" +:+ after
  | None => injectScriptTag html src = html +:+ nl +:+ scriptTag src +:+ nl
  end.
Proof.
  intros H. unfold injectScriptTag, Js.replaceFirst_ci.
  destruct (Js.find_ci "</body>" html) as [[[b m] a]|] eqn:Hf; [| done].
  destruct (find_ci_Some "</body>" html b m a) as (Hs & He & Hb); [done | done |].
  split; [done |]. split; [done |]. split; [done |].
  rewrite getSubstitution_plain by by apply replacement_plain.
  by rewrite !append_assoc.
Qed.

Lemma injectScriptTag_placement_witness :
  match Js.find_ci "</body>" "<body><p>hi</p></BODY></html>" with
  | Some (before, closing, after) =>
      "<body><p>hi</p></BODY></html>" = before +:+ closing +:+ after
      ∧ eq_ci closing "</body>" = true
      ∧ Js.find_ci "</body>" before = None
      ∧ injectScriptTag "<body><p>hi</p></BODY></html>" "/src/pages/main.ts"
        = before +:+ scriptTag "/src/pages/main.ts" +:+ nl +:+ "  </body>" +:+ after
  | None =>
      injectScriptTag "<body><p>hi</p></BODY></html>" "/src/pages/main.ts"
      = "<body><p>hi</p></BODY></html>" +:+ nl +:+ scriptTag "/src/pages/main.ts" +:+ nl
  end.
Proof.
  exact (injectScriptTag_placement "<body><p>hi</p></BODY></html>" "/src/pages/main.ts"
           eq_refl).
Defined.

(** ** Escaping: the script source is matched as a literal *)

Lemma matches_lit_ci_eq (s : string) : ∀ m, Re.matches (Re.lit_ci s) m → eq_ci m s = true.
Proof.
  induction s as [|c s IH]; intros m H; simpl in H.
  - by apply matches_eps in H as ->.
  - inversion H as [| | r1 r2 s1 s2 H1 H2 | | | |]; subst.
    inversion H1 as [| f a Ha | | | | |]; subst.
    apply IH in H2. unfold eq_ci in *. simpl. rewrite Ha.
    apply andb_true_iff in H2 as [Hl Hp]. by rewrite Hp, andb_true_r.
Qed.

Lemma eq_ci_matches_lit (s : string) : ∀ m, eq_ci m s = true → Re.matches (Re.lit_ci s) m.
Proof.
  induction s as [|c s IH]; intros m H; unfold eq_ci in H.
  - destruct m; [constructor | done].
  - destruct m as [|a m]; [done |]. simpl in H.
    destruct (Js.eqb_ci a c) eqn:E; [| by rewrite andb_false_r in H].
    apply (Re.MCat _ _ (String a "") m); [by constructor |].
    apply IH. by unfold eq_ci.
Qed.

(** Whatever the script source holds, its escaped form reads as a pattern,
    and that pattern matches exactly the strings equal to the source up
    to case: no code unit of the source acts as an operator. *)
Theorem escapeRegExp_reads_as_literal (s : string) :
  ∃ r, Re.parseAtoms (escapeRegExp s) = Some r
       ∧ ∀ m, Re.matches r m ↔ eq_ci m s = true.
Proof.
  exists (Re.lit_ci s). split; [apply parseAtoms_escapeRegExp |].
  intros m. split; [apply matches_lit_ci_eq | apply eq_ci_matches_lit].
Qed.

(** ** Path normalizers *)

Lemma toPosix_clean (p : string) :
  noneOf (fun a => Ascii.eqb a "\") p = true → toPosix p = p.
Proof.
  unfold toPosix. induction p as [|a p IH]; simpl; [done |].
  destruct (Ascii.eqb a "\"); [done |]. simpl. intros H. by rewrite IH.
Qed.

Lemma toPosix_no_backslash (p : string) :
  noneOf (fun a => Ascii.eqb a "\") (toPosix p) = true.
Proof.
  unfold toPosix. induction p as [|a p IH]; simpl; [done |].
  rewrite IH, andb_true_r. by destruct (Ascii.eqb a "\") eqn:E; [| rewrite E].
Qed.

(** [toPosix] leaves no backslash, keeps the length, and changes nothing in
    a path without backslashes, so applying it twice is applying it once;
    [withTrailingSlash] is idempotent too. *)
Theorem path_normalizers_idempotent (p : string) :
  noneOf (fun a => Ascii.eqb a "\") (toPosix p) = true
  ∧ String.length (toPosix p) = String.length p
  ∧ toPosix (toPosix p) = toPosix p
  ∧ withTrailingSlash (withTrailingSlash p) = withTrailingSlash p.
Proof.
  split; [apply toPosix_no_backslash |]. split; [| split].
  - unfold toPosix. induction p as [|a p IH]; simpl; [done | by rewrite IH].
  - apply toPosix_clean, toPosix_no_backslash.
  - unfold withTrailingSlash at 1. by rewrite withTrailingSlash_ends.
Qed.

(** ** Request resolver: the names of pages come back *)

Lemma startsWith_ci_refl (s : string) : Js.startsWith_ci s s = true.
Proof. induction s as [|a s IH]; [done |]. simpl. by rewrite eqb_ci_refl. Qed.

Lemma endsWith_ci_unfold (s p : string) :
  Js.endsWith_ci s p
  = if (String.length s =? String.length p)%nat && Js.startsWith_ci s p then true
    else match s with "" => false | String _ s' => Js.endsWith_ci s' p end.
Proof. by destruct s. Qed.

Lemma endsWith_ci_append (p q : string) : Js.endsWith_ci (p +:+ q) q = true.
Proof.
  induction p as [|x p IH]; rewrite endsWith_ci_unfold; simpl.
  - by rewrite Nat.eqb_refl, startsWith_ci_refl.
  - rewrite IH. by destruct (_ && _).
Qed.

Lemma stripSuffix_ci_append (p q : string) : Js.stripSuffix_ci (p +:+ q) q = p.
Proof.
  unfold Js.stripSuffix_ci. rewrite endsWith_ci_append, length_append.
  replace (String.length p + String.length q - String.length q)
    with (String.length p) by lia.
  apply take_append.
Qed.

Lemma queryOf_without_mark (u : string) : noneOf isQuestionMark u = true → queryOf u = "".
Proof.
  induction u as [|a u IH]; simpl; [done |]. unfold isQuestionMark at 1.
  destruct (Ascii.eqb a "?"); [done |]. simpl. apply IH.
Qed.

Lemma parsePageMeta_without_query (u : string) :
  noneOf isQuestionMark u = true →
  parsePageMeta u
  = mkPageMeta (canonicalPath u)
      (Js.stripSuffix_ci (Js.stripLeadingChar "/" (canonicalPath u)) ".html").
Proof.
  intros H. unfold parsePageMeta, canonicalPath.
  rewrite split_head_path, split_second_query
    by by rewrite queryOf_without_mark.
  rewrite queryOf_without_mark, pathOf_without_mark by done. simpl.
  destruct (String.eqb u "/" || String.eqb u ""); [done |].
  by destruct (Js.endsWith_ci u ".html").
Qed.

Lemma parsePageMeta_resolves_link_aux (n : string) :
  noneOf isQuestionMark n = true →
  parsePageMeta ("/" +:+ n +:+ ".html") = mkPageMeta ("/" +:+ n +:+ ".html") n.
Proof.
  intros H. rewrite parsePageMeta_without_query.
  2:{ simpl. by rewrite noneOf_append, H. }
  unfold canonicalPath.
  assert (String.eqb ("/" +:+ n +:+ ".html") "/" || String.eqb ("/" +:+ n +:+ ".html") ""
          = false) as ->.
  { simpl. by destruct n. }
  rewrite <- (append_assoc "/" n ".html"), endsWith_ci_append.
  f_equal. change (Js.stripLeadingChar "/" (("/" +:+ n) +:+ ".html")) with (n +:+ ".html").
  apply stripSuffix_ci_append.
Qed.

(** The link the listing page writes for a page name resolves to that
    name: for every name without a question mark, the request for the
    name followed by [.html] is already canonical and names the page. *)
Theorem parsePageMeta_resolves_link (n : string) :
  noneOf isQuestionMark n = true →
  parsePageMeta ("/" +:+ n +:+ ".html") = mkPageMeta ("/" +:+ n +:+ ".html") n.
Proof. apply parsePageMeta_resolves_link_aux. Qed.

Lemma parsePageMeta_resolves_link_witness :
  parsePageMeta ("/" +:+ "admin/dashboard" +:+ ".html")
  = mkPageMeta ("/" +:+ "admin/dashboard" +:+ ".html") "admin/dashboard".
Proof. exact (parsePageMeta_resolves_link "admin/dashboard" eq_refl). Defined.

Lemma all_char_endsWith (c : ascii) (s : string) :
  s ≠ "" → Js.all_char c s = true → Js.endsWith s (String c "") = true.
Proof.
  induction s as [|a s IH]; [done |]. intros _ H. simpl in H.
  apply andb_true_iff in H as [Ha Hs]. apply Ascii.eqb_eq in Ha as ->.
  rewrite endsWith_unfold. destruct (String.eqb (String c s) (String c "")) eqn:E; [done |].
  apply IH; [| done]. intros ->. by rewrite String.eqb_refl in E.
Qed.

Lemma stripTrailingRun_id (c : ascii) (s : string) :
  Js.endsWith s (String c "") = false → Js.stripTrailingRun c s = s.
Proof.
  induction s as [|a s IH]; [done |]. intros H.
  cbn [Js.stripTrailingRun].
  destruct (Js.all_char c (String a s)) eqn:E.
  - apply all_char_endsWith in E; [congruence | done].
  - f_equal. apply IH. rewrite endsWith_unfold in H.
    by destruct (String.eqb (String a s) (String c "")).
Qed.

(** So does the bare name: for every non-empty name without a question
    mark that does not end in a slash or in [.html], the request for the
    name alone is canonicalized by appending [.html] and names the page. *)
Theorem parsePageMeta_resolves_name (n : string) :
  n ≠ "" → noneOf isQuestionMark n = true →
  Js.endsWith n "/" = false → Js.endsWith_ci n ".html" = false →
  parsePageMeta ("/" +:+ n) = mkPageMeta ("/" +:+ n +:+ ".html") n.
Proof.
  intros Hne Hq Hs Hh. rewrite parsePageMeta_without_query by done.
  unfold canonicalPath.
  assert (String.eqb ("/" +:+ n) "/" || String.eqb ("/" +:+ n) "" = false) as ->.
  { simpl. by destruct n. }
  assert (Js.endsWith_ci ("/" +:+ n) ".html" = false) as ->.
  { rewrite endsWith_ci_unfold. simpl. by rewrite andb_false_r. }
  rewrite stripTrailingRun_id.
  2:{ rewrite endsWith_unfold. simpl. by destruct n. }
  f_equal.
  change (Js.stripLeadingChar "/" (("/" +:+ n) +:+ ".html")) with (n +:+ ".html").
  apply stripSuffix_ci_append.
Qed.

Lemma parsePageMeta_resolves_name_witness :
  parsePageMeta ("/" +:+ "admin/dashboard")
  = mkPageMeta ("/" +:+ "admin/dashboard" +:+ ".html") "admin/dashboard".
Proof.
  exact (parsePageMeta_resolves_name "admin/dashboard" ltac:(done) eq_refl eq_refl eq_refl).
Defined.

(** ** Production adapter: every entry point is served *)



(** ** Discovery: what the scan returns *)

Section ScanFacts.

Variable pf : NodePath.Platform.
Variable targets : list string.

Abbreviation wfAll := (Forall (fun n => wfName pf n = true)).

Lemma wfAll_snoc (dirs : list string) (n : string) :
  wfAll dirs → wfName pf n = true → wfAll (dirs ++ [n]).
Proof. intros Hd Hn. apply Forall_app. split; [done | by constructor]. Qed.

Lemma visit_paths (ent : Dirent) :
  ∀ dirs, wfAll dirs → wfDirent pf ent = true →
    visit pf targets (relDirOf pf dirs) ent = map matchPath (locate targets dirs ent).
Proof.
  induction ent as [n|n|n entries IH|n|n target _|n] using Dirent_tree_ind;
    intros dirs Hd Hw; rewrite visit_unfold, locate_unfold;
    destruct (shouldSkip _); try done.
  - simpl in Hw. rewrite andb_true_r in Hw.
    destruct (has targets n); [| done]. cbn [direntName map].
    rewrite (join_clean pf dirs n Hd Hw).
    rewrite split_relDirOf; [done | by destruct dirs | by apply wfAll_snoc].
  - simpl in Hw. apply andb_true_iff in Hw as [Hn Hents]. cbn [direntName].
    rewrite (join_clean pf dirs n Hd Hn).
    pose proof (wfAll_snoc dirs n Hd Hn) as Hd'.
    clear Hd Hn. induction entries as [|e entries IHe]; [done |].
    apply Forall_cons in IH as [IHhd IHtl].
    simpl in Hents. apply andb_true_iff in Hents as [He Hents].
    simpl. rewrite map_app, IHhd by done. f_equal. by apply IHe.
Qed.

Lemma locate_wf (ent : Dirent) :
  ∀ dirs l, wfAll dirs → wfDirent pf ent = true →
    In l (locate targets dirs ent) → wfAll l.1 ∧ wfName pf l.2 = true.
Proof.
  induction ent as [n|n|n entries IH|n|n target _|n] using Dirent_tree_ind;
    intros dirs l Hd Hw; rewrite locate_unfold;
    destruct (shouldSkip _); try done.
  - simpl in Hw. rewrite andb_true_r in Hw.
    destruct (has targets n); [| done]. intros [<-|[]]. done.
  - simpl in Hw. apply andb_true_iff in Hw as [Hn Hents].
    intros Hin. apply in_flat_map in Hin as (e & He & Hl).
    rewrite List.Forall_forall in IH. rewrite forallb_forall in Hents.
    apply (IH e He (dirs ++ [n]) l); auto using wfAll_snoc.
Qed.

(** Where a match can lie: below no skipped or hidden directory, under a
    target name that is not itself a skipped name. *)
Lemma locate_sound (ent : Dirent) :
  ∀ dirs l, In l (locate targets dirs ent) →
    In l.2 targets ∧ isSkippedName l.2 = false
    ∧ ∃ below, l.1 = dirs ++ below
        ∧ Forall (fun n => isSkippedName n = false ∧ Js.startsWith n "." = false) below.
Proof.
  induction ent as [n|n|n entries IH|n|n target _|n] using Dirent_tree_ind;
    intros dirs l; rewrite locate_unfold;
    destruct (shouldSkip _) eqn:Hskip; try done.
  - destruct (has targets n) eqn:Hhas; [| done]. intros [<-|[]]. simpl.
    split; [| split].
    + unfold has in Hhas. apply existsb_exists in Hhas as (t & Ht & Heq).
      by apply String.eqb_eq in Heq as ->.
    + unfold shouldSkip in Hskip. simpl in Hskip.
      rewrite !orb_false_r in Hskip. exact Hskip.
    + exists []. by rewrite app_nil_r.
  - intros Hin. apply in_flat_map in Hin as (e & He & Hl).
    rewrite List.Forall_forall in IH.
    destruct (IH e He (dirs ++ [n]) l Hl) as (Ht & Hs & below & Hb & Hbelow).
    split; [done |]. split; [done |].
    exists (n :: below). split; [by rewrite Hb, <- app_assoc |].
    constructor; [| done].
    unfold shouldSkip in Hskip. simpl in Hskip. rewrite orb_false_r in Hskip.
    apply orb_false_iff in Hskip as [Hs' Hh]. done.
Qed.

End ScanFacts.

Lemma findEntryFiles_located (h : Host) (entryFiles : list string) :
  wfListing (platform h) (pagesRoot h) = true →
  findEntryFiles h entryFiles = map matchPath (located entryFiles (pagesRoot h)).
Proof.
  intros Hw. unfold findEntryFiles, walk, located.
  destruct (pagesRoot h) as [entries|]; [| done]. simpl in Hw.
  induction entries as [|e entries IH]; [done |].
  simpl in Hw. apply andb_true_iff in Hw as [He Hw].
  simpl. rewrite map_app. f_equal; [| by apply IH].
  by apply (visit_paths (platform h) entryFiles e []).
Qed.



(** Every path the scan returns ends in one of the target names, and none
    lies below [node_modules], [dist], [.git] or another directory whose
    name starts with a dot; a target that bears one of the three names is
    not returned either. *)
Theorem findEntryFiles_avoids_skipped (h : Host) (entryFiles : list string) (rel : string) :
  wfListing (platform h) (pagesRoot h) = true →
  In rel (findEntryFiles h entryFiles) →
  ∃ dirs f,
    rel = Js.join "/" (dirs ++ [f])
    ∧ In f entryFiles
    ∧ isSkippedName f = false
    ∧ Forall (fun n => isSkippedName n = false ∧ Js.startsWith n "." = false) dirs.
Proof.
  intros Hw Hin. rewrite findEntryFiles_located in Hin by done.
  apply in_map_iff in Hin as ([dirs f] & <- & Hl). exists dirs, f.
  split; [done |]. unfold located in Hl.
  destruct (pagesRoot h) as [entries|]; [| done].
  apply in_flat_map in Hl as (e & _ & Hl).
  destruct (locate_sound entryFiles e [] (dirs, f) Hl) as (Ht & Hs & below & Hb & Hbelow).
  simpl in *. by subst.
Qed.

Lemma findEntryFiles_avoids_skipped_witness :
  ∃ dirs f,
    "about/main.ts" = Js.join "/" (dirs ++ [f])
    ∧ In f ["main.ts"]
    ∧ isSkippedName f = false
    ∧ Forall (fun n => isSkippedName n = false ∧ Js.startsWith n "." = false) dirs.
Proof.
  exact (findEntryFiles_avoids_skipped siteHost ["main.ts"] "about/main.ts" eq_refl
           (or_introl eq_refl)).
Defined.

Lemma concat_app (sep : string) (a b : list string) :
  a ≠ [] → b ≠ [] →
  String.concat sep (a ++ b) = String.concat sep a +:+ sep +:+ String.concat sep b.
Proof.
  intros Ha Hb. induction a as [|x a IH]; [done |].
  destruct a as [|y a].
  - destruct b; [done | done].
  - change (String.concat sep ((x :: y :: a) ++ b))
      with (x +:+ sep +:+ String.concat sep ((y :: a) ++ b)).
    rewrite IH by done.
    change (String.concat sep (x :: y :: a))
      with (x +:+ sep +:+ String.concat sep (y :: a)).
    by rewrite !append_assoc.
Qed.

Lemma join_posix_clean (a b : list string) :
  a ≠ [] → b ≠ [] →
  Forall (fun n => wfName NodePath.Posix n = true) a →
  Forall (fun n => wfName NodePath.Posix n = true) b →
  NodePath.join NodePath.Posix [relDirOf NodePath.Posix a; relDirOf NodePath.Posix b]
  = relDirOf NodePath.Posix (a ++ b).
Proof.
  intros Ha Hb Hwa Hwb. unfold NodePath.join.
  destruct (relDirOf_first NodePath.Posix a Ha Hwa) as (x & r & Hr & _).
  destruct (relDirOf_first NodePath.Posix b Hb Hwb) as (y & r' & Hr' & _).
  assert (List.filter Js.truthy [relDirOf NodePath.Posix a; relDirOf NodePath.Posix b]
          = [relDirOf NodePath.Posix a; relDirOf NodePath.Posix b]) as ->
    by by rewrite Hr, Hr'.
  replace (Js.join (String (NodePath.sep NodePath.Posix) "")
             [relDirOf NodePath.Posix a; relDirOf NodePath.Posix b])
    with (relDirOf NodePath.Posix (a ++ b)).
  - apply normalize_clean; [by destruct a | by apply Forall_app].
  - unfold relDirOf, Js.join. by rewrite concat_app.
Qed.

(** The entry of every page is the pages directory, in POSIX form, followed
    by the POSIX-relative path of the match, with a leading slash: on either
    platform, for a pages directory given as well-formed names. *)
Theorem resolveItems_entries (h : Host) (pagesDir : string) (entryFiles : list string)
    (defaultTemplate : string) (pagesSegs : list string) :
  wfListing (platform h) (pagesRoot h) = true →
  pagesSegs ≠ [] → Forall (fun n => wfName NodePath.Posix n = true) pagesSegs →
  toPosix pagesDir = Js.join "/" pagesSegs →
  map entry (resolveItems h pagesDir entryFiles defaultTemplate)
  = map (fun l => "/" +:+ Js.join "/" (pagesSegs ++ l.1 ++ [l.2]))
      (located entryFiles (pagesRoot h)).
Proof.
  intros Hw Hne Hsegs Hdir. unfold resolveItems.
  rewrite findEntryFiles_located, !map_map by done.
  apply map_ext_in. intros [dirs f] Hl. cbn [entry resolveItem matchPath fst snd].
  f_equal. rewrite Hdir.
  assert (Forall (fun n => wfName (platform h) n = true) dirs
          ∧ wfName (platform h) f = true) as [Hd Hf].
  { unfold located in Hl. destruct (pagesRoot h) as [entries|]; [| done].
    apply in_flat_map in Hl as (e & He & Hl). simpl in Hw.
    rewrite forallb_forall in Hw.
    by apply (locate_wf (platform h) entryFiles e [] (dirs, f)); auto. }
  apply (join_posix_clean pagesSegs (dirs ++ [f])); [done | by destruct dirs | done |].
  apply (wfNames_posix (platform h)), wfAll_snoc; done.
Qed.

Lemma resolveItems_entries_witness :
  map entry (resolveItems (nestedHost NodePath.Win32) "src\pages" ["main.ts"] "")
  = map (fun l => "/" +:+ Js.join "/" (["src"; "pages"] ++ l.1 ++ [l.2]))
      (located ["main.ts"] nestedListing).
Proof.
  exact (resolveItems_entries (nestedHost NodePath.Win32) "src\pages" ["main.ts"] ""
           ["src"; "pages"] eq_refl ltac:(done)
           ltac:(repeat constructor) eq_refl).
Defined.

(** ** Request filter: which requests are taken for navigations *)

Lemma matchesb_complete (s : string) : ∀ r, Re.matches r s → matchesb r s = true.
Proof.
  induction s as [|a s IH]; intros r H; simpl.
  - by apply (matches_nullable r "").
  - apply IH. by apply (matches_deriv r (String a s)).
Qed.

Lemma matchesb_sound (s : string) : ∀ r, matchesb r s = true → Re.matches r s.
Proof.
  induction s as [|a s IH]; intros r H; simpl in H.
  - by apply nullable_sound.
  - by apply deriv_sound, IH.
Qed.

Lemma testToEnd_unfold (r : Re.re) (s : string) :
  testToEnd r s
  = matchesb r s || match s with "" => false | String _ s' => testToEnd r s' end.
Proof. by destruct s. Qed.

Lemma testToEnd_spec (r : Re.re) (s : string) :
  testToEnd r s = true ↔ ∃ p m, s = p +:+ m ∧ Re.matches r m.
Proof.
  split.
  - induction s as [|a s IH]; rewrite testToEnd_unfold, ?orb_false_r.
    + intros H. exists "", "". split; [done | by apply matchesb_sound].
    + intros H. apply orb_true_iff in H as [H|H].
      * exists "", (String a s). split; [done | by apply matchesb_sound].
      * destruct (IH H) as (p & m & -> & Hm). by exists (String a p), m.
  - intros (p & m & -> & Hm). induction p as [|a p IH]; rewrite testToEnd_unfold.
    + simpl. by rewrite matchesb_complete.
    + simpl. rewrite IH. apply orb_true_r.
Qed.

Lemma matches_star_all (f : ascii → bool) (q : string) :
  noneOf (fun a => negb (f a)) q = true → Re.matches (Re.Star (Re.Cls f)) q.
Proof.
  induction q as [|a q IH]; simpl; [constructor |].
  rewrite andb_true_iff, negb_true_iff, negb_false_iff. intros [Ha Hq].
  apply (Re.MStarApp _ (String a "") q); [by constructor | auto].
Qed.

Lemma html_not_asset (stem ext query : string) (hasQuery : bool) :
  eq_ci ext ".html" = true →
  noneOf (fun a => negb (isDotChar a)) query = true →
  let u := stem +:+ ext +:+ (if hasQuery then "?" +:+ query else "") in
  Js.startsWith u "/@vite/" = false → Js.startsWith u "/@id/" = false →
  isViteInternalOrNonHtmlAsset u = false.
Proof.
  intros He Hq u Hv Hi. unfold isViteInternalOrNonHtmlAsset. rewrite Hv, Hi.
  assert (testToEnd htmlRe u = true) as ->; [| by rewrite andb_false_r].
  apply testToEnd_spec. exists stem, (ext +:+ (if hasQuery then "?" +:+ query else "")).
  split; [done |]. unfold htmlRe. constructor; [by apply eq_ci_matches_lit |].
  unfold queryTail. destruct hasQuery.
  - apply Re.MAltL. apply (Re.MCat _ _ "?" query); [by constructor |].
    by apply matches_star_all.
  - apply Re.MAltR. constructor.
Qed.

(** A request for a document ending in [.html], in any case, with or
    without a query string on the same line, is never taken for an asset:
    unless it starts with one of the two internal prefixes it passes the
    filter. *)
Theorem html_requests_pass_filter (stem ext query : string) (hasQuery : bool) :
  eq_ci ext ".html" = true →
  noneOf (fun a => negb (isDotChar a)) query = true →
  let u := stem +:+ ext +:+ (if hasQuery then "?" +:+ query else "") in
  Js.startsWith u "/@vite/" = false → Js.startsWith u "/@id/" = false →
  isViteInternalOrNonHtmlAsset u = false.
Proof. apply html_not_asset. Qed.

Lemma html_requests_pass_filter_witness :
  isViteInternalOrNonHtmlAsset ("/admin/dashboard" +:+ ".HTML" +:+ "?" +:+ "tab=1") = false.
Proof.
  exact (html_requests_pass_filter "/admin/dashboard" ".HTML" "tab=1" true
           eq_refl eq_refl eq_refl eq_refl).
Defined.

(** A request without a dot in it is never taken for an asset either. *)
Theorem dotless_requests_pass_filter (u : string) :
  noneOf (fun a => Ascii.eqb a ".") u = true →
  Js.startsWith u "/@vite/" = false → Js.startsWith u "/@id/" = false →
  isViteInternalOrNonHtmlAsset u = false.
Proof.
  intros Hd Hv Hi. unfold isViteInternalOrNonHtmlAsset. rewrite Hv, Hi.
  destruct (testToEnd assetRe u) eqn:E; [| done].
  apply testToEnd_spec in E as (p & m & -> & Hm).
  unfold assetRe in Hm. inversion Hm as [| | r1 r2 s1 s2 H1 H2 | | | |]; subst.
  inversion H1 as [| f a Ha | | | | |]; subst.
  rewrite noneOf_append in Hd. simpl in Hd. rewrite Ha in Hd.
  by rewrite andb_false_r in Hd.
Qed.

Lemma dotless_requests_pass_filter_witness :
  isViteInternalOrNonHtmlAsset "/admin/dashboard/?tab=1" = false.
Proof.
  exact (dotless_requests_pass_filter "/admin/dashboard/?tab=1" eq_refl eq_refl eq_refl).
Defined.

(** ** The listing of known pages *)




(** ** The middleware *)

(** The middleware answers only navigations: whenever it writes a response
    the method is GET or HEAD, the URL passed the filter and the Accept
    header names [text/html] or the wildcard; the response is an HTML
    document with status 200 for a known page or status 404 with the
    listing for an unknown one. Every other request goes to the next
    handler, and that and the 404 leave the caches and the trace as they
    were. *)
Theorem middleware_intercepts_only_navigations (d : Disk) (pages : Pages)
    (configBase : string) (transformIndexHtml : string → string → string)
    (req : Request) (w : World) :
  let r := middleware d pages configBase transformIndexHtml req w in
  let method := orDefault (reqMethod req) "GET" in
  let urlRaw := orDefault (reqOriginalUrl req) (orDefault (reqUrl req) "") in
  let accept := acceptString (reqAccept req) in
  match r.1 with
  | Next => r.2 = w
  | Respond status contentType body =>
      contentType = htmlContentType
      ∧ (method = "GET" ∨ method = "HEAD")
      ∧ isViteInternalOrNonHtmlAsset urlRaw = false
      ∧ (includes accept "text/html" = true ∨ includes accept "*/*" = true)
      ∧ ((status = 404 ∧ body = render404 pages ∧ r.2 = w
          ∧ pages !! pageName (parsePageMeta urlRaw) = None)
         ∨ (status = 200 ∧ is_Some (pages !! pageName (parsePageMeta urlRaw))))
  end.
Proof.
  cbv zeta. unfold middleware.
  set (method := orDefault (reqMethod req) "GET").
  set (urlRaw := orDefault (reqOriginalUrl req) (orDefault (reqUrl req) "")).
  set (accept := acceptString (reqAccept req)).
  destruct (negb (String.eqb method "GET") && negb (String.eqb method "HEAD")) eqn:Hm;
    [done |].
  assert (method = "GET" ∨ method = "HEAD") as Hm'.
  { destruct (String.eqb_spec method "GET"); [by left |].
    destruct (String.eqb_spec method "HEAD"); [by right | done]. }
  destruct (isViteInternalOrNonHtmlAsset urlRaw) eqn:Hf; [done |].
  destruct (includes accept "text/html" || includes accept "*/*") eqn:Ha; [| done].
  cbn [negb]. apply orb_true_iff in Ha.
  destruct (pages !! pageName (parsePageMeta urlRaw)) as [page|] eqn:Hp.
  - destruct (loadHtmlContent d page true (Js.or_else configBase "/") true w).
    cbn [fst snd]. repeat split; eauto.
  - cbn [fst snd]. repeat split; auto.
Qed.




(** ** Debounced rediscovery *)

Lemma clearTimeout_single (t : nat) : clearTimeout t [t] = [].
Proof. unfold clearTimeout. simpl. by rewrite Nat.eqb_refl. Qed.

Lemma schedule_keeps_one (r : Refresher) :
  oneTimerArmed r →
  armed (scheduleRefreshPages r) = [nextTimer r]
  ∧ refreshTimer (scheduleRefreshPages r) = Some (nextTimer r)
  ∧ current (scheduleRefreshPages r) = current r.
Proof.
  intros [Ha | (t & Ha & Ht & _)]; unfold scheduleRefreshPages; simpl.
  - rewrite Ha. by destruct (refreshTimer r).
  - by rewrite Ht, Ha, clearTimeout_single.
Qed.

Lemma schedule_invariant (r : Refresher) : oneTimerArmed r → oneTimerArmed (scheduleRefreshPages r).
Proof.
  intros H. destruct (schedule_keeps_one r H) as (Ha & Ht & _).
  right. exists (nextTimer r). split; [done |]. split; [done |]. simpl. lia.
Qed.

Lemma fire_invariant (pagesDir : string) (entryFiles : list string) (defaultTemplate : string)
    (t : nat) (h : Host) (r : Refresher) :
  oneTimerArmed r → oneTimerArmed (timerFires pagesDir entryFiles defaultTemplate t h r).
Proof.
  intros H. unfold timerFires. destruct (existsb (Nat.eqb t) (armed r)) eqn:E; [| done].
  destruct H as [Ha | (t' & Ha & Ht & Hlt)].
  - by rewrite Ha in E.
  - rewrite Ha in E. simpl in E. rewrite orb_false_r in E. apply Nat.eqb_eq in E as ->.
    left. simpl. by rewrite Ha, clearTimeout_single.
Qed.

(** Whatever watcher events and timers follow one another after the
    server was configured, at most one rediscovery is pending: no timer is
    armed, or only the one set last. *)
Theorem at_most_one_refresh_pending (pagesDir : string) (entryFiles : list string)
    (defaultTemplate : string) (initial : Pages) (events : list RefreshEvent) :
  oneTimerArmed
    (fold_left (refreshStep pagesDir entryFiles defaultTemplate) events
       (initialRefresher initial)).
Proof.
  assert (oneTimerArmed (initialRefresher initial)) as H0.
  { right. exists 0. simpl. repeat split; lia. }
  revert H0. generalize (initialRefresher initial).
  induction events as [|e events IH]; intros r Hr; [done |].
  simpl. apply IH. destruct e; [by apply schedule_invariant | by apply fire_invariant].
Qed.

Lemma schedule_burst (k : nat) (r : Refresher) :
  oneTimerArmed r →
  let r' := Nat.iter (S k) scheduleRefreshPages r in
  oneTimerArmed r'
  ∧ armed r' = [nextTimer r + k]
  ∧ refreshTimer r' = Some (nextTimer r + k)
  ∧ current r' = current r.
Proof.
  intros H. induction k as [|k IH]; cbv zeta.
  - simpl. destruct (schedule_keeps_one r H) as (Ha & Ht & Hc).
    rewrite Nat.add_0_r. auto using schedule_invariant.
  - cbv zeta in IH. destruct IH as (Hinv & Ha & Ht & Hc).
    change (Nat.iter (S (S k)) scheduleRefreshPages r)
      with (scheduleRefreshPages (Nat.iter (S k) scheduleRefreshPages r)).
    destruct (schedule_keeps_one _ Hinv) as (Ha' & Ht' & Hc').
    assert (nextTimer (Nat.iter (S k) scheduleRefreshPages r) = nextTimer r + S k) as Hn.
    { clear. induction k as [|k IHk]; simpl in *; [lia |]. rewrite IHk. lia. }
    rewrite Ha', Ht', Hc', Hn, Hc. auto using schedule_invariant.
Qed.

(** A burst of watcher events leads to one scan: after any number of
    calls of [scheduleRefreshPages] in a row the index is still the old
    one and only the timer set last is armed; when that timer runs, the
    index is replaced by the scan of the host as it is then and nothing
    is left pending, and the timers set earlier do nothing when run. *)
Theorem burst_leads_to_one_scan (pagesDir : string) (entryFiles : list string)
    (defaultTemplate : string) (k : nat) (h : Host) (r : Refresher) :
  oneTimerArmed r →
  let r' := Nat.iter (S k) scheduleRefreshPages r in
  let last := nextTimer r + k in
  current r' = current r
  ∧ armed r' = [last]
  ∧ current (timerFires pagesDir entryFiles defaultTemplate last h r')
    = resolvePages h pagesDir entryFiles defaultTemplate
  ∧ armed (timerFires pagesDir entryFiles defaultTemplate last h r') = []
  ∧ ∀ t, t ≠ last → timerFires pagesDir entryFiles defaultTemplate t h r' = r'.
Proof.
  intros H. cbv zeta. destruct (schedule_burst k r H) as (_ & Ha & Ht & Hc).
  split; [done |]. split; [done |]. unfold timerFires. rewrite Ha.
  rewrite clearTimeout_single. cbn [existsb]. rewrite Nat.eqb_refl. cbn [orb current armed].
  split; [done |]. split; [done |].
  intros t Hne. apply Nat.eqb_neq in Hne. by rewrite Hne.
Qed.

Lemma burst_leads_to_one_scan_witness :
  let r := initialRefresher ∅ in
  let r' := Nat.iter 3 scheduleRefreshPages r in
  let last := nextTimer r + 2 in
  current r' = current r
  ∧ armed r' = [last]
  ∧ current (timerFires "src/pages" ["main.ts"] "src/index.html" last siteHost r')
    = resolvePages siteHost "src/pages" ["main.ts"] "src/index.html"
  ∧ armed (timerFires "src/pages" ["main.ts"] "src/index.html" last siteHost r') = []
  ∧ ∀ t, t ≠ last → timerFires "src/pages" ["main.ts"] "src/index.html" t siteHost r' = r'.
Proof.
  exact (burst_leads_to_one_scan "src/pages" ["main.ts"] "src/index.html" 2 siteHost
           (initialRefresher ∅)
           (or_intror (ex_intro _ 0 (conj eq_refl (conj eq_refl (le_n 1)))))).
Defined.

(** ** Development cache: keyed by base and entry *)

(** The assembled-HTML cache is keyed by base and entry path alone: once a
    page is rendered, a page with the same entry path is served the same
    HTML under that base even when its template is another one by then,
    as after a rediscovery that found an [index.html] added next to the
    entry. *)
Theorem loadHtmlContent_dev_keyed_by_entry (d d' : Disk) (page page' : Page) (base : string)
    (onError onError' : bool) (w : World) :
  entry page' = entry page →
  let first := loadHtmlContent d page true base onError w in
  loadHtmlContent d' page' true base onError' first.2 = (first.1, first.2).
Proof.
  intros He. cbv zeta.
  rewrite (loadHtmlContent_dev_unfold d page base onError w _ eq_refl).
  set (key := withTrailingSlash (Js.or_else base "/") +:+ "|" +:+ toPosix (entry page)).
  assert (key = withTrailingSlash (Js.or_else base "/") +:+ "|" +:+ toPosix (entry page'))
    as Hk by by rewrite He.
  destruct (getTruthy (entryContentCache w) key) as [c|] eqn:Hc.
  - cbn [fst snd].
    rewrite (loadHtmlContent_dev_unfold d' page' base onError' w key Hk).
    by rewrite Hc.
  - cbv zeta. cbn [fst snd].
    rewrite (loadHtmlContent_dev_unfold d' page' base onError' _ key Hk).
    cbn [setEntry entryContentCache]. rewrite getTruthy_insert; [done |].
    apply injectScript_truthy, readTemplateWithCache_truthy.
Qed.

Lemma loadHtmlContent_dev_keyed_by_entry_witness :
  let page := mkPage "about" "/src/pages/about/main.ts" "" in
  let page' := mkPage "about" "/src/pages/about/main.ts" "/site/src/pages/about/index.html" in
  let first := loadHtmlContent (fun _ => Missing) page true "/" true (mkWorld ∅ ∅ []) in
  loadHtmlContent siteDisk page' true "/" true first.2 = (first.1, first.2).
Proof.
  exact (loadHtmlContent_dev_keyed_by_entry (fun _ => Missing) siteDisk
           (mkPage "about" "/src/pages/about/main.ts" "")
           (mkPage "about" "/src/pages/about/main.ts" "/site/src/pages/about/index.html")
           "/" true true (mkWorld ∅ ∅ []) eq_refl).
Defined.

(** ** Discovery: directories that cannot be read *)

Lemma visit_unreadableAsEmpty (pf : NodePath.Platform) (targets : list string) (ent : Dirent) :
  ∀ relDir, visit pf targets relDir (unreadableAsEmpty ent) = visit pf targets relDir ent.
Proof.
  induction ent as [n|n|n entries IH|n|n target _|n] using Dirent_tree_ind;
    intros relDir; try done.
  cbn [unreadableAsEmpty]. rewrite !visit_unfold.
  change (shouldSkip (Dir n (Some (map unreadableAsEmpty entries))))
    with (shouldSkip (Dir n (Some entries))).
  destruct (shouldSkip (Dir n (Some entries))); [done |].
  cbn [direntName].
  generalize (NodePath.join pf [relDir; n]). intros rel.
  induction entries as [|e entries IHe]; [done |].
  apply Forall_cons in IH as [IHhd IHtl].
  simpl. rewrite IHhd. f_equal. by apply IHe.
Qed.

(** The scan swallows read failures: a directory that cannot be read
    counts as an empty one, wherever it lies, and the rest of the listing
    is scanned as usual. *)
Theorem findEntryFiles_swallows_unreadable (pf : NodePath.Platform) (absPagesDir : string)
    (entries : list Dirent) (d : Disk) (entryFiles : list string) :
  findEntryFiles (mkHost pf absPagesDir (Some (map unreadableAsEmpty entries)) d) entryFiles
  = findEntryFiles (mkHost pf absPagesDir (Some entries) d) entryFiles
  ∧ findEntryFiles (mkHost pf absPagesDir None d) entryFiles = [].
Proof.
  split; [| done]. unfold findEntryFiles, walk. cbn [platform pagesRoot].
  induction entries as [|e entries IH]; [done |].
  simpl. by rewrite visit_unreadableAsEmpty, IH.
Qed.


